(** * MetaBE: ledger, referral graph, commissions and the return accrual engine

    A shallow embedding of the core of the MetaX Coin backend:
    - [models/wallet.py]      (module [Wallet])
    - [models/referral.py]    (module [Referral])
    - [models/investment.py]  (module [UserInvestment], [InvestmentPackage])
    - [services/investment_service.py] (module [InvestmentService])
    - [api/investments.py]    (module [InvestmentsApi])

    Modelling conventions.
    - Money values are exact rationals ([Qc]); rounding on storage and the
      binary/decimal representation are outside the model.  Where the
      source computes with operands of different Python types (the
      [Decimal] of a [Numeric(20,8)] column, the [float] of the [Float]
      percentage or of a parsed form field, an [int]), the operands are
      [number]s, which carry their type, and the operation raises the
      [TypeError] Python raises when a [Decimal] meets a [float].
    - Exceptions are named by their class.
    - Dates are day ordinals ([Z]); nullable columns are [option].
    - Tables with a primary key or a unique constraint are finite maps keyed
      by it: wallets by [(user_id, wallet_type)], users, packages and
      positions by [id].  Tables that are only appended to, or scanned,
      are lists of rows in insertion order.
    - The SQLAlchemy session is the state of a small state-and-exception
      monad [M]: a raised exception keeps the pending changes, and it is
      the handler that decides between [rollback] and carrying on.
    - Free-text descriptions and interpolated messages are left out of the
      audit rows; their evaluation is kept where it can raise. *)

From Stdlib Require Import QArith Qcanon Lqa ZArith.
From Equations Require Import Equations.
From stdpp Require Import gmap strings list fin_maps numbers.

Open Scope Qc_scope.

(** ** Rational arithmetic helpers *)

Notation "'#' n" := (Qc_of_Z n) (at level 1, n at level 0, format "# n") : Qc_scope.

Definition Qcmin (x y : Qc) : Qc := if decide (x ≤ y) then x else y.
Definition Qcmax (x y : Qc) : Qc := if decide (y ≤ x) then x else y.

(** Turns a goal over [Qc] into the same goal over [Q], where [lra] and
    [field] apply. *)
Ltac qc_to_q :=
  repeat match goal with
  | H : @eq Qc _ _ |- _ => apply (f_equal this) in H
  | |- @eq Qc _ _ => apply Qc_is_canon
  end;
  unfold Qcle, Qclt, Qcminus, Qcdiv in *;
  unfold Qcplus, Qcmult, Qcopp, Qcinv, Q2Qc in *; simpl this in *;
  rewrite ?Qred_correct in *.

Ltac qc_lra := qc_to_q; lra.

(** ** Data model *)

(** [models/wallet.py]: one row per [(user_id, wallet_type)]. *)
Record Wallet := { balance : Qc; locked_balance : Qc }.

(** [models/transaction.py]: the audit rows the ledger writes. *)
Record Transaction := {
  tx_user_id : Z;
  transaction_type : string;
  tx_wallet_type : string;
  tx_amount : Qc
}.

(** [models/user.py], the columns the core reads or writes. *)
Record User := {
  sponsor_id : option Z;
  is_active : bool;
  total_earnings : Qc
}.

(** [models/referral.py]: an upline edge. *)
Record Referral := {
  referrer_id : Z;
  referred_id : Z;
  level : Z;
  ref_is_active : bool;
  total_commission_earned : Qc
}.

Inductive PackageStatus := PKG_ACTIVE | PKG_CANCELLED.
Inductive InvestmentStatus := ACTIVE | MATURED | CANCELLED.
Inductive ReturnStatus := PAID | FAILED.

Inductive IncomeType :=
  | DIRECT_REFERRAL | LEVEL_BONUS | STAKING_REWARD | SELF_INVESTMENT
  | LIFETIME_REWARD | BONUS | PROMOTION_BONUS | LEADERSHIP_BONUS.

Record Income := {
  inc_user_id : Z;
  income_type : IncomeType;
  inc_amount : Qc;
  from_user_id : option Z;
  inc_level : option Z
}.

Record InvestmentPackage := {
  min_amount : Qc;
  max_amount : option Qc;
  total_return_percentage : Qc;
  duration_days : Z;
  end_date : option Z;
  pkg_status : PackageStatus
}.

Record UserInvestment := {
  user_id : Z;
  package_id : Z;
  amount_invested : Qc;
  investment_date : Z;
  returns_start_date : option Z;
  maturity_date : option Z;
  total_returns_paid : Qc;
  last_return_date : option Z;
  status : InvestmentStatus
}.

Record InvestmentReturn := {
  investment_id : Z;
  return_date : Z;
  return_amount : Qc;
  days_since_start : Z;
  ret_status : ReturnStatus
}.

Global Instance Wallet_eq_dec : EqDecision Wallet.
Proof. solve_decision. Defined.
Global Instance Transaction_eq_dec : EqDecision Transaction.
Proof. solve_decision. Defined.
Global Instance User_eq_dec : EqDecision User.
Proof. solve_decision. Defined.
Global Instance Referral_eq_dec : EqDecision Referral.
Proof. solve_decision. Defined.
Global Instance PackageStatus_eq_dec : EqDecision PackageStatus.
Proof. solve_decision. Defined.
Global Instance InvestmentStatus_eq_dec : EqDecision InvestmentStatus.
Proof. solve_decision. Defined.
Global Instance ReturnStatus_eq_dec : EqDecision ReturnStatus.
Proof. solve_decision. Defined.
Global Instance IncomeType_eq_dec : EqDecision IncomeType.
Proof. solve_decision. Defined.
Global Instance Income_eq_dec : EqDecision Income.
Proof. solve_decision. Defined.
Global Instance InvestmentPackage_eq_dec : EqDecision InvestmentPackage.
Proof. solve_decision. Defined.
Global Instance UserInvestment_eq_dec : EqDecision UserInvestment.
Proof. solve_decision. Defined.
Global Instance InvestmentReturn_eq_dec : EqDecision InvestmentReturn.
Proof. solve_decision. Defined.

(** The relational store (and, inside a request, the session over it). *)
Record DB := {
  wallets : gmap (Z * string) Wallet;
  users : gmap Z User;
  referrals : list Referral;
  packages : gmap Z InvestmentPackage;
  investments : gmap Z UserInvestment;
  returns : list InvestmentReturn;
  transactions : list Transaction;
  incomes : list Income
}.

Global Instance DB_eq_dec : EqDecision DB.
Proof. solve_decision. Defined.

Definition set_wallets (f : gmap (Z * string) Wallet → gmap (Z * string) Wallet) (db : DB) : DB :=
  {| wallets := f (wallets db); users := users db; referrals := referrals db;
     packages := packages db; investments := investments db;
     returns := returns db; transactions := transactions db; incomes := incomes db |}.
Definition set_users (f : gmap Z User → gmap Z User) (db : DB) : DB :=
  {| wallets := wallets db; users := f (users db); referrals := referrals db;
     packages := packages db; investments := investments db;
     returns := returns db; transactions := transactions db; incomes := incomes db |}.
Definition set_referrals (f : list Referral → list Referral) (db : DB) : DB :=
  {| wallets := wallets db; users := users db; referrals := f (referrals db);
     packages := packages db; investments := investments db;
     returns := returns db; transactions := transactions db; incomes := incomes db |}.
Definition set_investments (f : gmap Z UserInvestment → gmap Z UserInvestment) (db : DB) : DB :=
  {| wallets := wallets db; users := users db; referrals := referrals db;
     packages := packages db; investments := f (investments db);
     returns := returns db; transactions := transactions db; incomes := incomes db |}.
Definition set_returns (f : list InvestmentReturn → list InvestmentReturn) (db : DB) : DB :=
  {| wallets := wallets db; users := users db; referrals := referrals db;
     packages := packages db; investments := investments db;
     returns := f (returns db); transactions := transactions db; incomes := incomes db |}.
Definition set_transactions (f : list Transaction → list Transaction) (db : DB) : DB :=
  {| wallets := wallets db; users := users db; referrals := referrals db;
     packages := packages db; investments := investments db;
     returns := returns db; transactions := f (transactions db); incomes := incomes db |}.
Definition set_incomes (f : list Income → list Income) (db : DB) : DB :=
  {| wallets := wallets db; users := users db; referrals := referrals db;
     packages := packages db; investments := investments db;
     returns := returns db; transactions := transactions db; incomes := f (incomes db) |}.

(** ** The session monad *)

Inductive outcome (A : Type) :=
  | Return (a : A)
  | Raise (e : string).
Arguments Return {A} a.
Arguments Raise {A} e.

Global Instance outcome_eq_dec {A} `{EqDecision A} : EqDecision (outcome A).
Proof. solve_decision. Defined.

Definition M (A : Type) : Type := DB → outcome A * DB.

Definition ret {A} (a : A) : M A := λ db, (Return a, db).
Definition raise {A} (e : string) : M A := λ db, (Raise e, db).
Definition bind {A B} (m : M A) (k : A → M B) : M B :=
  λ db, match m db with
        | (Return a, db') => k a db'
        | (Raise e, db') => (Raise e, db')
        end.
Definition get_db : M DB := λ db, (Return db, db).
Definition modify (f : DB → DB) : M unit := λ db, (Return tt, f db).

Notation "x <~ m ;> k" := (bind m (λ x, k))
  (at level 20, m at level 10, k at level 200, only parsing).
Notation "m ;> k" := (bind m (λ _, k))
  (at level 20, k at level 200, only parsing).

(** [try: m; commit  except: rollback].  The session is clean when an entry
    point starts, so rolling back restores the state at entry. *)
Definition transactional {A} (m : M A) : DB → outcome A * DB :=
  λ db, match m db with
        | (Return a, db') => (Return a, db')
        | (Raise e, _) => (Raise e, db)
        end.

(** [try: m  except Exception: pass] without a rollback: whatever [m] had
    already changed stays in the session. *)
Definition best_effort {A} (m : M A) : M unit :=
  λ db, match m db with
        | (_, db') => (Return tt, db')
        end.

(** [Model.query.get(id)] followed by an attribute access: a missing row is
    [None], and reading an attribute of [None] raises. *)
Definition query_user (id : Z) : M User :=
  λ db, match users db !! id with
        | Some u => (Return u, db)
        | None => (Raise "AttributeError", db)
        end.

(** [Wallet.query.filter_by(user_id, wallet_type).first()] followed by
    [if not wallet: wallet = Wallet(..., balance=0); db.session.add(wallet)]. *)
Definition first_or_add_wallet (k : Z * string) : M unit :=
  modify (set_wallets (λ m, match m !! k with
                            | Some _ => m
                            | None => <[k := {| balance := 0; locked_balance := 0 |}]> m
                            end)).

(** ** Python numbers

    The money arithmetic of the service mixes three Python types: [int]
    literals and [Integer] columns, [float] for the [Float] column
    [total_return_percentage] and for what the admin form parses with
    [float(...)], and [Decimal] for the [Numeric(20,8)] columns and for
    what is parsed with [Decimal(...)].  Python refuses arithmetic between
    a [Decimal] and a [float] with a [TypeError]; comparisons between them
    are allowed.  A number carries its type and its value; values are
    exact rationals (rounding is left out). *)

Inductive number :=
  | PyInt (n : Z)
  | PyFloat (x : Qc)
  | PyDecimal (d : Qc).

Global Instance number_eq_dec : EqDecision number.
Proof. solve_decision. Defined.

Definition value (a : number) : Qc :=
  match a with
  | PyInt n => Qc_of_Z n
  | PyFloat x => x
  | PyDecimal d => d
  end.

(** The type of the result of an arithmetic operation whose operands are
    not both [int]. *)
Definition coerce (a b : number) : outcome (Qc → number) :=
  match a, b with
  | PyDecimal _, PyFloat _ | PyFloat _, PyDecimal _ => Raise "TypeError"
  | PyDecimal _, _ | _, PyDecimal _ => Return PyDecimal
  | _, _ => Return PyFloat
  end.

Definition py_mul (a b : number) : outcome number :=
  match a, b with
  | PyInt n, PyInt m => Return (PyInt (n * m))
  | _, _ =>
      match coerce a b with
      | Return as_type => Return (as_type (value a * value b))
      | Raise e => Raise e
      end
  end.

Definition py_sub (a b : number) : outcome number :=
  match a, b with
  | PyInt n, PyInt m => Return (PyInt (n - m))
  | _, _ =>
      match coerce a b with
      | Return as_type => Return (as_type (value a - value b))
      | Raise e => Raise e
      end
  end.

(** [a / b]: true division, a [float] for two [int]s. *)
Definition py_truediv (a b : number) : outcome number :=
  match coerce a b with
  | Return as_type =>
      if decide (value b = 0) then Raise "ZeroDivisionError"
      else Return (as_type (value a / value b))
  | Raise e => Raise e
  end.

(** [min(a, b)] and [max(a, b)] return the first of the two when they
    compare equal. *)
Definition py_min (a b : number) : number := if decide (value b < value a) then b else a.
Definition py_max (a b : number) : number := if decide (value a < value b) then b else a.

Definition lift {A} (o : outcome A) : M A := λ db, (o, db).

(** ** [models/wallet.py] *)

Module Wallet.

Definition available_balance (self : Wallet) : Qc := balance self - locked_balance self.

Definition get_wallet_types : list string :=
  ["available_fund"; "total_gain"; "level_bonus"; "total_referral"; "total_income"].

Definition get_income_wallet_types : list string :=
  ["total_gain"; "level_bonus"; "total_referral"].

(** The row behind the Python object [self]; a method called on the
    result of a failed lookup raises. *)
Definition row (self : Z * string) : M Wallet :=
  λ db, match wallets db !! self with
        | Some w => (Return w, db)
        | None => (Raise "AttributeError", db)
        end.

Definition set_balance (self : Z * string) (b : Qc) : M unit :=
  modify (set_wallets (alter (λ w, {| balance := b; locked_balance := locked_balance w |}) self)).

Definition set_locked_balance (self : Z * string) (l : Qc) : M unit :=
  modify (set_wallets (alter (λ w, {| balance := balance w; locked_balance := l |}) self)).

Definition _log_wallet_transaction (self : Z * string) (ttype : string) (amount : Qc) : M unit :=
  modify (set_transactions (λ log, log ++
    [ {| tx_user_id := self.1; transaction_type := ttype;
         tx_wallet_type := self.2; tx_amount := amount |} ])).

Definition _update_total_income_wallet (self : Z * string) (amount : Qc) : M unit :=
  db <~ get_db ;>
  match wallets db !! (self.1, "total_income") with
  | Some total_income_wallet =>
      if decide ((self.1, "total_income") ≠ self)
      then set_balance (self.1, "total_income") (balance total_income_wallet + amount)
      else ret tt
  | None => ret tt
  end.

Definition add_balance (self : Z * string) (amount : Qc) : M unit :=
  if decide (amount ≤ 0) then raise "Amount must be positive"
  else
    w <~ row self ;>
    set_balance self (balance w + amount) ;>
    (if decide (self.2 ∈ get_income_wallet_types)
     then _update_total_income_wallet self amount
     else ret tt) ;>
    _log_wallet_transaction self "credit" amount.

Definition subtract_balance (self : Z * string) (amount : Qc) : M unit :=
  if decide (amount ≤ 0) then raise "Amount must be positive"
  else
    w <~ row self ;>
    if decide (available_balance w < amount) then raise "Insufficient balance"
    else
      set_balance self (balance w - amount) ;>
      _log_wallet_transaction self "debit" amount.

Definition lock_balance (self : Z * string) (amount : Qc) : M unit :=
  if decide (amount ≤ 0) then raise "Amount must be positive"
  else
    w <~ row self ;>
    if decide (available_balance w < amount) then raise "Insufficient available balance"
    else set_locked_balance self (locked_balance w + amount).

Definition unlock_balance (self : Z * string) (amount : Qc) : M unit :=
  if decide (amount ≤ 0) then raise "Amount must be positive"
  else
    w <~ row self ;>
    if decide (locked_balance w < amount) then raise "Insufficient locked balance"
    else set_locked_balance self (locked_balance w - amount).

Definition transfer_to (self target_wallet : Z * string) (amount : Qc) : M unit :=
  if decide (amount ≤ 0) then raise "Amount must be positive"
  else
    w <~ row self ;>
    if decide (available_balance w < amount) then raise "Insufficient balance"
    else
      subtract_balance self amount ;>
      add_balance target_wallet amount ;>
      modify (set_transactions (λ log, log ++
        [ {| tx_user_id := self.1; transaction_type := "transfer";
             tx_wallet_type := self.2 +:+ " -> " +:+ target_wallet.2;
             tx_amount := amount |} ])).

Definition initialize_user_wallets (user_id : Z) : M unit :=
  modify (set_wallets (λ m,
    foldl (λ m wallet_type,
             match m !! (user_id, wallet_type) with
             | Some _ => m
             | None => <[(user_id, wallet_type) := {| balance := 0; locked_balance := 0 |}]> m
             end) m get_wallet_types)).

End Wallet.

(** ** [models/referral.py] *)

Record Commission := {
  c_referrer_id : Z;
  c_level : Z;
  c_amount : Qc;
  c_wallet_type : string
}.

Module Referral.

(** The [while] loop of [create_referral_chain].  [current_sponsor_id]
    is falsy when it is [None] or [0]; the number of levels still allowed
    is what decreases. *)
Equations? create_referral_chain_loop
    (users : gmap Z User) (new_user_id max_levels : Z)
    (current_sponsor_id : option Z) (level : Z)
    (visited_sponsors : gset Z) (referrals : list Referral)
  : list Referral by wf (Z.to_nat (max_levels + 1 - level)) lt :=
create_referral_chain_loop users new_user_id max_levels None level visited referrals :=
  referrals;
create_referral_chain_loop users new_user_id max_levels (Some c) level visited referrals
  with decide (c ≠ 0 ∧ level ≤ max_levels)%Z := {
  | right _ => referrals
  | left _ with decide (c ∈ visited) := {
    | left _ => referrals
    | right _ =>
        create_referral_chain_loop users new_user_id max_levels
          (users !! c ≫= sponsor_id) (level + 1) ({[c]} ∪ visited)
          (referrals ++ [ {| referrer_id := c; referred_id := new_user_id;
                             level := level; ref_is_active := true;
                             total_commission_earned := 0 |} ]) } }.
Proof. lia. Qed.

Definition truthy (id : option Z) : bool :=
  match id with Some n => bool_decide (n ≠ 0%Z) | None => false end.

Definition create_referral_chain (sponsor_id : option Z) (new_user_id max_levels : Z)
  : M (list Referral) :=
  if truthy sponsor_id then
    db <~ get_db ;>
    let referrals :=
      create_referral_chain_loop (users db) new_user_id max_levels sponsor_id 1 ∅ [] in
    modify (set_referrals (λ table, table ++ referrals)) ;>
    ret referrals
  else ret [].

Definition default_commission_rates : gmap Z Qc :=
  list_to_map [(1%Z, #10); (2%Z, #5); (3%Z, #3); (4%Z, #2); (5%Z, #1)].

(** [if not commission_rates] holds for [None] and for the empty dict. *)
Definition calculate_commission (investment_amount : Qc) (level : Z)
    (commission_rates : option (gmap Z Qc)) : Qc :=
  let commission_rates :=
    match commission_rates with
    | Some rates => if decide (rates = ∅) then default_commission_rates else rates
    | None => default_commission_rates
    end in
  let rate := default 0 (commission_rates !! level) in
  (investment_amount * rate) / #100.

Definition wallet_type_for (level : Z) : string :=
  if decide (level = 1%Z) then "total_referral" else "level_bonus".

Definition add_commission_earned (amount : Qc) (r : Referral) : Referral :=
  {| referrer_id := referrer_id r; referred_id := referred_id r; level := level r;
     ref_is_active := ref_is_active r;
     total_commission_earned := total_commission_earned r + amount |}.

Definition add_total_earnings (amount : Qc) (u : User) : User :=
  {| sponsor_id := sponsor_id u; is_active := is_active u;
     total_earnings := total_earnings u + amount |}.

(** [Referral.query.filter_by(referred_id=user_id, is_active=True).all()]:
    the rows with their position in the table, so that the loop can
    update them in place. *)
Definition upline_referrals (user_id : Z) (db : DB) : list (nat * Referral) :=
  filter (λ ir, referred_id ir.2 = user_id ∧ ref_is_active ir.2 = true)
         (imap pair (referrals db)).

(** The body of the [for referral in upline_referrals] loop. *)
Definition pay_commission (user_id : Z) (investment_amount : Qc)
    (commission_rates : option (gmap Z Qc)) (ir : nat * Referral) : M (list Commission) :=
  let referral := ir.2 in
  let commission_amount :=
    calculate_commission investment_amount (level referral) commission_rates in
  if decide (0 < commission_amount) then
    db <~ get_db ;>
    match users db !! referrer_id referral with
    | Some referrer =>
        if is_active referrer then
          let wallet_type := wallet_type_for (level referral) in
          let wallet := (referrer_id referral, wallet_type) in
          first_or_add_wallet wallet ;>
          _ <~ query_user user_id ;>
          Wallet.add_balance wallet commission_amount ;>
          modify (set_referrals (alter (add_commission_earned commission_amount) ir.1)) ;>
          modify (set_incomes (λ log, log ++
            [ {| inc_user_id := referrer_id referral;
                 income_type := if decide (level referral = 1%Z)
                                then DIRECT_REFERRAL else LEVEL_BONUS;
                 inc_amount := commission_amount;
                 from_user_id := Some user_id;
                 inc_level := Some (level referral) |} ])) ;>
          modify (set_users (alter (add_total_earnings commission_amount)
                                   (referrer_id referral))) ;>
          ret [ {| c_referrer_id := referrer_id referral; c_level := level referral;
                   c_amount := commission_amount; c_wallet_type := wallet_type |} ]
        else ret []
    | None => ret []
    end
  else ret [].

Fixpoint pay_commissions (user_id : Z) (investment_amount : Qc)
    (commission_rates : option (gmap Z Qc)) (rows : list (nat * Referral))
  : M (list Commission) :=
  match rows with
  | [] => ret []
  | ir :: rest =>
      paid <~ pay_commission user_id investment_amount commission_rates ir ;>
      more <~ pay_commissions user_id investment_amount commission_rates rest ;>
      ret (paid ++ more)
  end.

Definition distribute_commissions (user_id : Z) (investment_amount : Qc)
    (commission_rates : option (gmap Z Qc)) : M (list Commission) :=
  db <~ get_db ;>
  pay_commissions user_id investment_amount commission_rates (upline_referrals user_id db).

End Referral.

(** ** [models/investment.py] *)

Definition date_le (d : option Z) (D : Z) : bool :=
  match d with Some x => bool_decide (x ≤ D)%Z | None => false end.
Definition date_lt (d : option Z) (D : Z) : bool :=
  match d with Some x => bool_decide (x < D)%Z | None => false end.
Definition date_gt (d : option Z) (D : Z) : bool :=
  match d with Some x => bool_decide (D < x)%Z | None => false end.

Module InvestmentPackage.

Definition is_available_for_investment (today : Z) (self : InvestmentPackage) : bool :=
  bool_decide (pkg_status self = PKG_ACTIVE) &&
  match end_date self with
  | None => true
  | Some e => bool_decide (today ≤ e)%Z
  end.

(** [total_return_percentage] is a [Float] column, [duration_days] an
    [Integer] column. *)
Definition calculate_daily_return (self : InvestmentPackage) (investment_amount : number)
  : M number :=
  percentage <~ lift (py_truediv (PyFloat (total_return_percentage self)) (PyInt 100)) ;>
  total_return <~ lift (py_mul investment_amount percentage) ;>
  if decide (0 < duration_days self)%Z
  then lift (py_truediv total_return (PyInt (duration_days self)))
  else ret (PyInt 0).

End InvestmentPackage.

Module UserInvestment.

(** The relationship [self.package]. *)
Definition package (db : DB) (self : UserInvestment) : option InvestmentPackage :=
  packages db !! package_id self.

(** [self.package.<attribute>]: reading an attribute of a missing package
    raises. *)
Definition the_package (self : UserInvestment) : M InvestmentPackage :=
  λ db, match package db self with
        | Some p => (Return p, db)
        | None => (Raise "AttributeError", db)
        end.

(** [amount_invested] and [total_returns_paid] are [Numeric] columns: the
    row holds [Decimal]s, also before the flush (the purchase handler
    stores [Decimal(str(amount))]). *)
Definition expected_total_return (self : UserInvestment) : M number :=
  package <~ the_package self ;>
  percentage <~ lift (py_truediv (PyFloat (total_return_percentage package)) (PyInt 100)) ;>
  lift (py_mul (PyDecimal (amount_invested self)) percentage).

Definition expected_daily_return (self : UserInvestment) : M number :=
  package <~ the_package self ;>
  InvestmentPackage.calculate_daily_return package (PyDecimal (amount_invested self)).

Definition returns_remaining (self : UserInvestment) : M number :=
  expected <~ expected_total_return self ;>
  difference <~ lift (py_sub expected (PyDecimal (total_returns_paid self))) ;>
  ret (py_max (PyInt 0) difference).

Definition is_eligible_for_return_today (today : Z) (self : UserInvestment) : bool :=
  bool_decide (status self = ACTIVE) &&
  match returns_start_date self with
  | Some s =>
      bool_decide (s ≤ today)%Z &&
      match maturity_date self with
      | Some m =>
          bool_decide (today < m)%Z &&
          match last_return_date self with
          | None => true
          | Some l => bool_decide (l < today)%Z
          end
      | None => false
      end
  | None => false
  end.

Definition calculate_return_for_date (calculation_date : Z) (self : UserInvestment)
  : M number :=
  match returns_start_date self with
  | None => ret (PyInt 0)
  | Some s =>
      if decide (calculation_date < s)%Z then ret (PyInt 0)
      else match maturity_date self with
           | Some m => if decide (m ≤ calculation_date)%Z then ret (PyInt 0)
                       else expected_daily_return self
           | None => expected_daily_return self
           end
  end.

(** [to_dict(include_package=True)]: of the entries of the dictionary,
    those whose evaluation can raise, in the order they are evaluated. *)
Definition to_dict (self : UserInvestment) : M unit :=
  expected_total_return self ;>
  expected_daily_return self ;>
  returns_remaining self ;>
  the_package self ;>
  ret tt.

Definition set_status (st : InvestmentStatus) (self : UserInvestment) : UserInvestment :=
  {| user_id := user_id self; package_id := package_id self;
     amount_invested := amount_invested self; investment_date := investment_date self;
     returns_start_date := returns_start_date self; maturity_date := maturity_date self;
     total_returns_paid := total_returns_paid self;
     last_return_date := last_return_date self; status := st |}.

Definition update_status_based_on_dates (today : Z) (self : UserInvestment) : UserInvestment :=
  if decide (status self = ACTIVE) then
    match maturity_date self with
    | Some m => if decide (m ≤ today)%Z then set_status MATURED self else self
    | None => self
    end
  else self.

End UserInvestment.

(** ** [services/investment_service.py] *)

Inductive response :=
  | Success (message : string)
  | Failure (message : string).

Global Instance response_eq_dec : EqDecision response.
Proof. solve_decision. Defined.

Record daily_result := {
  processed_count : Z;
  total_amount : Qc
}.

Global Instance daily_result_eq_dec : EqDecision daily_result.
Proof. solve_decision. Defined.

Module InvestmentService.

(** The filter of [_get_eligible_investments]; a comparison with a NULL
    column is not true, so the row is not selected. *)
Definition eligible (calculation_date : Z) (inv : UserInvestment) : bool :=
  bool_decide (status inv = ACTIVE) &&
  date_le (returns_start_date inv) calculation_date &&
  date_gt (maturity_date inv) calculation_date &&
  match last_return_date inv with
  | None => true
  | Some l => bool_decide (l < calculation_date)%Z
  end.

(** The ids of the selected rows ([.all()], in the order of the table scan). *)
Definition _get_eligible_investments (calculation_date : Z) (db : DB) : list Z :=
  (map_to_list (filter (λ kv, eligible calculation_date kv.2 = true) (investments db))).*1.

Definition _calculate_daily_return (investment : UserInvestment) : M number :=
  db <~ get_db ;>
  match UserInvestment.package db investment with
  | None => ret (PyInt 0)
  | Some package =>
      if decide (duration_days package ≤ 0)%Z then ret (PyInt 0)
      else if decide (total_return_percentage package < 0) then ret (PyInt 0)
      else
        percentage <~
          lift (py_truediv (PyFloat (total_return_percentage package)) (PyInt 100)) ;>
        total_return <~ lift (py_mul (PyDecimal (amount_invested investment)) percentage) ;>
        daily_return <~ lift (py_truediv total_return (PyInt (duration_days package))) ;>
        expected <~ UserInvestment.expected_total_return investment ;>
        remaining_return <~
          lift (py_sub expected (PyDecimal (total_returns_paid investment))) ;>
        let calculated_return := py_min daily_return remaining_return in
        ret (py_max (PyInt 0) calculated_return)
  end.

Definition record_return (return_amount : Qc) (return_date : Z)
    (self : UserInvestment) : UserInvestment :=
  {| user_id := user_id self; package_id := package_id self;
     amount_invested := amount_invested self; investment_date := investment_date self;
     returns_start_date := returns_start_date self; maturity_date := maturity_date self;
     total_returns_paid := total_returns_paid self + return_amount;
     last_return_date := Some return_date; status := status self |}.

(** [Income.create_bonus_income(..., bonus_type='Self Investment')]: the
    type is looked up in a table that has no such key, with [BONUS] as
    the default. *)
Definition create_bonus_income (user_id : Z) (amount : Qc) (bonus_type : string) : M unit :=
  let income_type_map : list (string * IncomeType) :=
    [("Bonus", BONUS); ("Promotion Bonus", PROMOTION_BONUS);
     ("Leadership Bonus", LEADERSHIP_BONUS); ("Lifetime Reward", LIFETIME_REWARD)] in
  let income_type :=
    default BONUS ((list_to_map income_type_map : gmap string IncomeType) !! bonus_type) in
  modify (set_incomes (λ log, log ++
    [ {| inc_user_id := user_id; income_type := income_type; inc_amount := amount;
         from_user_id := None; inc_level := None |} ])).

(** The [try] block of [_process_investment_return], up to the commit.
    The position is the live row with primary key [investment_id]; the
    amount is a [Decimal]. *)
Definition process_investment_return_body (investment_id : Z) (return_amount : Qc)
    (return_date : Z) : M unit :=
  db <~ get_db ;>
  match investments db !! investment_id with
  | None => raise "AttributeError"
  | Some investment =>
      let gain_wallet := (user_id investment, "total_gain") in
      first_or_add_wallet gain_wallet ;>
      match UserInvestment.package db investment with
      | None => raise "AttributeError"
      | Some _ =>
          Wallet.add_balance gain_wallet return_amount ;>
          create_bonus_income (user_id investment) return_amount "Self Investment" ;>
          modify (set_investments
                    (alter (record_return return_amount return_date) investment_id)) ;>
          match returns_start_date investment with
          | None => raise "TypeError"
          | Some s =>
              let days_since_start := (return_date - s + 1)%Z in
              modify (set_returns (λ log, log ++
                [ {| investment_id := investment_id; return_date := return_date;
                     return_amount := return_amount;
                     days_since_start := days_since_start;
                     ret_status := PAID |} ]))
          end
      end
  end.

Definition _process_investment_return (investment_id : Z) (return_amount : Qc)
    (return_date : Z) (db : DB) : bool * DB :=
  match transactional (process_investment_return_body investment_id return_amount return_date) db with
  | (Return _, db') => (true, db')
  | (Raise _, db') => (false, db')
  end.

(** The maturity sweep, with [date.today()] passed in. *)
Definition _update_investment_statuses (today : Z) (db : DB) : DB :=
  set_investments
    (fmap (λ inv, if bool_decide (status inv = ACTIVE) && date_le (maturity_date inv) today
                  then UserInvestment.set_status MATURED inv else inv)) db.

(** The body of the [for investment in eligible_investments] loop, with
    its own [try ... except Exception: continue]: an exception raised by
    the calculation skips the position.  The calculation only reads. *)
Definition accrue (today : Z) (acc : daily_result * DB) (investment_id : Z)
  : daily_result * DB :=
  let '(totals, db) := acc in
  match investments db !! investment_id with
  | None => acc
  | Some investment =>
      match _calculate_daily_return investment db with
      | (Return return_amount, _) =>
          if decide (0 < value return_amount) then
            match _process_investment_return investment_id (value return_amount) today db with
            | (true, db') =>
                ({| processed_count := processed_count totals + 1;
                    total_amount := total_amount totals + value return_amount |}, db')
            | (false, db') => (totals, db')
            end
          else acc
      | (Raise _, _) => acc
      end
  end.

Definition calculate_daily_investment_returns (today : Z) (db : DB) : daily_result * DB :=
  let eligible_investments := _get_eligible_investments today db in
  let '(totals, db') :=
    foldl (accrue today) ({| processed_count := 0; total_amount := 0 |}, db)
          eligible_investments in
  (totals, _update_investment_statuses today db').

(** [amount] is the [Decimal] the admin form parses.  The whole body is
    inside [try ... except Exception as e: return failure(str(e))]; the
    exceptions are named by their class. *)
Definition manual_distribute_returns (investment_id : Z) (amount : Qc) (today : Z)
    (db : DB) : response * DB :=
  match investments db !! investment_id with
  | None => (Failure "Investment not found", db)
  | Some investment =>
      if decide (amount ≤ 0) then (Failure "Amount must be greater than 0", db)
      else
        match UserInvestment.returns_remaining investment db with
        | (Raise e, _) => (Failure e, db)
        | (Return remaining, _) =>
            if decide (value remaining < amount)
            then (Failure "Amount exceeds remaining returns", db)
            else
              match _process_investment_return investment_id amount today db with
              | (true, db') => (Success "Successfully distributed", db')
              | (false, db') => (Failure "Failed to process return", db')
              end
        end
  end.

(** The [try] block of [settle_matured_investment] after the status
    check, up to the commit.  [settlement_fee_percent] is whatever number
    the caller passes: the default is the [int] 0, the admin route parses
    the form field with [float(...)]. *)
Definition settle_body (investment_id : Z) (investment : UserInvestment)
    (settlement_option : string) (settlement_fee_percent : number) : M response :=
  let principal_amount := PyDecimal (amount_invested investment) in
  settlement_fee <~
    (if decide (0 < value settlement_fee_percent)
     then product <~ lift (py_mul principal_amount settlement_fee_percent) ;>
          lift (py_truediv product (PyInt 100))
     else ret (PyInt 0)) ;>
  net_principal <~ lift (py_sub principal_amount settlement_fee) ;>
  let close :=
    modify (set_investments (alter (UserInvestment.set_status CANCELLED) investment_id)) ;>
    ret (Success "Investment settled successfully") in
  if decide (settlement_option = "available_fund") then
    let dest_wallet := (user_id investment, "available_fund") in
    first_or_add_wallet dest_wallet ;>
    w <~ Wallet.row dest_wallet ;>
    Wallet.set_balance dest_wallet (balance w + value net_principal) ;>
    db <~ get_db ;>
    match UserInvestment.package db investment with
    | None => raise "AttributeError"
    | Some _ => close
    end
  else if decide (settlement_option = "keep_invested") then
    db <~ get_db ;>
    match UserInvestment.package db investment with
    | None => raise "AttributeError"
    | Some _ => close
    end
  else ret (Failure "Invalid settlement option").

Definition settle_matured_investment (investment_id : Z) (settlement_option : string)
    (settlement_fee_percent : number) (db : DB) : response * DB :=
  match investments db !! investment_id with
  | None => (Failure "Investment not found", db)
  | Some investment =>
      if decide (status investment ≠ MATURED)
      then (Failure "Investment is not matured yet", db)
      else
        match transactional (settle_body investment_id investment settlement_option
                                         settlement_fee_percent) db with
        | (Return (Success m), db') => (Success m, db')
        | (Return (Failure m), _) => (Failure m, db)
        | (Raise e, db') => (Failure e, db')
        end
  end.

Definition force_mature_investment (investment_id : Z) (db : DB) : response * DB :=
  match investments db !! investment_id with
  | None => (Failure "Investment not found", db)
  | Some investment =>
      if decide (status investment ≠ ACTIVE)
      then (Failure "Investment is not active", db)
      else (Success "Investment force matured successfully",
            set_investments (alter (UserInvestment.set_status MATURED) investment_id) db)
  end.

End InvestmentService.

(** ** [api/investments.py] *)

Inductive purchase_response :=
  | Purchased (investment_id : Z) (new_available_balance : Qc)
  | Rejected (status_code : Z) (message : string).

Global Instance purchase_response_eq_dec : EqDecision purchase_response.
Proof. solve_decision. Defined.

Module InvestmentsApi.

(** [func.sum(amount_invested)] over the user's purchases of today, [or 0]. *)
Definition today_investments (uid today : Z) (db : DB) : Qc :=
  map_fold (λ _ inv total,
              if decide (user_id inv = uid ∧ investment_date inv = today)
              then total + amount_invested inv else total)
           0 (investments db).

Definition daily_limit : Qc := #50000.

(** The autoincrement primary key given to a new position by the flush:
    one more than the largest id in the table. *)
Definition next_id (table : gmap Z UserInvestment) : Z :=
  (1 + map_fold (λ k _ largest, k `max` largest) 0 table)%Z.

(** The reply of the handler's own [except Exception as e] clause,
    [f'Error processing investment: {str(e)}'] with status 500; the
    exception is named by its class. *)
Definition error_reply (e : string) : purchase_response :=
  Rejected 500 ("Error processing investment: " +:+ e).

(** From [Wallet.initialize_user_wallets] to [db.session.commit()]: a
    reply returned on the way ([inl]), or the id of the position that is
    committed ([inr]). *)
Definition purchase_body (uid pid : Z) (package : InvestmentPackage) (amount : Qc)
    (today : Z) : M (purchase_response + Z) :=
  Wallet.initialize_user_wallets uid ;>
  db <~ get_db ;>
  match wallets db !! (uid, "available_fund") with
  | None => ret (inl (Rejected 500 "Available fund wallet not found"))
  | Some available_wallet =>
      if decide (balance available_wallet < amount)
      then ret (inl (Rejected 400 "Insufficient available funds"))
      else if decide (daily_limit < today_investments uid today db + amount)
      then ret (inl (Rejected 400 "Daily investment limit exceeded"))
      else
        let returns_start_date := (today + 1)%Z in
        let maturity_date := (returns_start_date + duration_days package)%Z in
        let id : Z := next_id (investments db) in
        modify (set_investments (insert id
          {| user_id := uid; package_id := pid; amount_invested := amount;
             investment_date := today;
             returns_start_date := Some returns_start_date;
             maturity_date := Some maturity_date;
             total_returns_paid := 0; last_return_date := None;
             status := ACTIVE |})) ;>
        Wallet.set_balance (uid, "available_fund") (balance available_wallet - amount) ;>
        modify (set_transactions (λ log, log ++
          [ {| tx_user_id := uid; transaction_type := "investment_purchase";
               tx_wallet_type := "available_fund"; tx_amount := amount |} ])) ;>
        best_effort (Referral.distribute_commissions uid amount None) ;>
        ret (inr id)
  end.

(** The success reply, built after the commit: [investment.to_dict(...)],
    then the wallet's balance. *)
Definition purchase_reply (uid investment_id : Z) : M purchase_response :=
  db <~ get_db ;>
  match investments db !! investment_id with
  | None => raise "AttributeError"
  | Some investment =>
      UserInvestment.to_dict investment ;>
      w <~ Wallet.row (uid, "available_fund") ;>
      ret (Purchased investment_id (balance w))
  end.

(** The handler.  A reply returned before [db.session.commit()] leaves
    the store as it was: the session is discarded with the request, and
    the [except] clause rolls it back.  An exception raised after the
    commit gets the same error reply, with the purchase stored.

    The name [date] is local to the handler (it is imported again inside
    it, before the daily limit is computed), so [date.today()] in the
    closing date test raises [UnboundLocalError] whenever
    [package.end_date] is set; when it is not, [and] does not evaluate
    it. *)
Definition purchase_investment (uid pid : Z) (amount : Qc) (today : Z) (db : DB)
  : purchase_response * DB :=
  if decide (pid = 0%Z ∨ amount = 0) then (Rejected 400 "Package ID and amount are required", db)
  else if decide (amount ≤ 0) then (Rejected 400 "Amount must be greater than 0", db)
  else
    match packages db !! pid with
    | None => (Rejected 404 "Investment package not found", db)
    | Some package =>
        if negb (InvestmentPackage.is_available_for_investment today package)
        then (Rejected 400 "Investment package is not available", db)
        else
          match end_date package with
          | Some _ => (error_reply "UnboundLocalError", db)
          | None =>
              if decide (amount < min_amount package)
              then (Rejected 400 "Minimum investment amount", db)
              else if match max_amount package with
                      | Some mx => bool_decide (mx ≠ 0 ∧ mx < amount)
                      | None => false
                      end
              then (Rejected 400 "Maximum investment amount", db)
              else
                match users db !! uid with
                | None => (Rejected 404 "User not found", db)
                | Some user =>
                    if negb (is_active user) then (Rejected 403 "Account is deactivated", db)
                    else
                      match purchase_body uid pid package amount today db with
                      | (Return (inl reply), _) => (reply, db)
                      | (Raise e, _) => (error_reply e, db)
                      | (Return (inr investment_id), db') =>
                          match purchase_reply uid investment_id db' with
                          | (Return reply, _) => (reply, db')
                          | (Raise e, _) => (error_reply e, db')
                          end
                      end
                end
          end
    end.

End InvestmentsApi.

(** ** [models/transaction.py]: what approving or rejecting a transaction
    does to the ledger.  The methods read the transaction row's [user_id],
    [wallet_type], [amount] and [fee]; these are passed in. *)

Module Transaction.

Definition _process_deposit (uid : Z) (wallet_type : string) (amount : Qc) : M unit :=
  first_or_add_wallet (uid, wallet_type) ;>
  Wallet.add_balance (uid, wallet_type) amount.

Definition _process_withdrawal (uid : Z) (wallet_type : string) (amount fee : Qc) : M unit :=
  db <~ get_db ;>
  match wallets db !! (uid, wallet_type) with
  | None => raise "Wallet not found"
  | Some wallet =>
      let total_amount := amount + fee in
      if decide (Wallet.available_balance wallet < total_amount)
      then raise "Insufficient balance for withdrawal"
      else Wallet.subtract_balance (uid, wallet_type) total_amount
  end.

Definition _unlock_withdrawal_funds (uid : Z) (wallet_type : string) (amount fee : Qc)
  : M unit :=
  db <~ get_db ;>
  match wallets db !! (uid, wallet_type) with
  | Some _ =>
      let total_amount := amount + fee in
      Wallet.unlock_balance (uid, wallet_type) total_amount
  | None => ret tt
  end.

End Transaction.

(** ** [models/user.py] *)

Module User.

(** [func.sum(amount_invested)] over the user's ACTIVE and MATURED
    positions, [0.0] when there is none. *)
Definition get_total_investment (self_id : Z) (db : DB) : Qc :=
  map_fold (λ _ inv total,
              if decide (user_id inv = self_id ∧ (status inv = ACTIVE ∨ status inv = MATURED))
              then total + amount_invested inv else total)
           0 (investments db).

End User.

Import InvestmentService Referral.
(** * Specification vocabulary

    The predicates and projections the statements below are written with,
    and the concrete stores used as examples. *)

(** The balance shown for a wallet; a wallet the user does not have shows
    as zero (as in [Wallet.get_user_balances]). *)
Definition wallet_balance (db : DB) (k : Z * string) : Qc :=
  match wallets db !! k with Some w => balance w | None => 0 end.

(** The ledger invariant of one wallet, and of the whole store. *)
Definition wallet_ok (w : Wallet) : Prop :=
  0 ≤ balance w ∧ 0 ≤ locked_balance w ∧ locked_balance w ≤ balance w.
Definition ledger_ok (db : DB) : Prop :=
  ∀ k w, wallets db !! k = Some w → wallet_ok w.

(** The log row [_process_investment_return] appends. *)
Definition return_row (id : Z) (amt : Qc) (D s : Z) : InvestmentReturn :=
  {| investment_id := id; return_date := D; return_amount := amt;
     days_since_start := (D - s + 1)%Z; ret_status := PAID |}.

(** The effect of the maturity sweep on one position. *)
Definition sweep_row (D : Z) (inv : UserInvestment) : UserInvestment :=
  if bool_decide (status inv = ACTIVE) && date_le (maturity_date inv) D
  then UserInvestment.set_status MATURED inv else inv.

(** A fee percent the [Decimal] principal can be multiplied by: any number
    but a [float]. *)
Definition decimal_compatible (fee : number) : Prop :=
  match fee with PyFloat _ => False | _ => True end.

Global Instance decimal_compatible_dec fee : Decision (decimal_compatible fee).
Proof. destruct fee; apply _. Defined.

(** The eligibility predicate, as the specification words it. *)
Definition eligible_spec (D : Z) (inv : UserInvestment) : Prop :=
  status inv = ACTIVE
  ∧ (∃ s, returns_start_date inv = Some s ∧ (s ≤ D)%Z)
  ∧ (∃ m, maturity_date inv = Some m ∧ (D < m)%Z)
  ∧ (last_return_date inv = None ∨ ∃ l, last_return_date inv = Some l ∧ (l < D)%Z).

(** The rate that applies to a level, the wallet a commission of that level
    is routed to, and the edges that are paid: positive commission and an
    existing, active referrer. *)
Definition rate_of (commission_rates : option (gmap Z Qc)) (lvl : Z) : Qc :=
  default 0 (match commission_rates with
             | Some rates => if decide (rates = ∅) then default_commission_rates else rates
             | None => default_commission_rates
             end !! lvl).

Definition target (r : Referral) : Z * string :=
  (referrer_id r, if decide (level r = 1%Z) then "total_referral" else "level_bonus").

Definition payable (db : DB) (A : Qc) (rates : option (gmap Z Qc)) (r : Referral) : Prop :=
  0 < A * rate_of rates (level r) / #100 ∧
  is_active <$> users db !! referrer_id r = Some true.

Global Instance payable_dec db A rates r : Decision (payable db A rates r).
Proof. unfold payable. apply _. Defined.

Definition commission_of (A : Qc) (rates : option (gmap Z Qc)) (r : Referral) : Commission :=
  {| c_referrer_id := referrer_id r; c_level := level r;
     c_amount := A * rate_of rates (level r) / #100;
     c_wallet_type := if decide (level r = 1%Z) then "total_referral" else "level_bonus" |}.

Definition credit_of (A : Qc) (rates : option (gmap Z Qc)) (r : Referral) : Transaction :=
  {| tx_user_id := referrer_id r; transaction_type := "credit";
     tx_wallet_type := if decide (level r = 1%Z) then "total_referral" else "level_bonus";
     tx_amount := A * rate_of rates (level r) / #100 |}.

Definition sumQ (l : list Qc) : Qc := foldr Qcplus 0 l.

(** The wallet row that initialisation and the find-or-create steps add. *)
Definition zero_wallet : Wallet := {| balance := 0; locked_balance := 0 |}.

(** [n] consecutive daily runs, the first one dated [D]. *)
Fixpoint run_days (n : nat) (D : Z) (db : DB) : DB :=
  match n with
  | O => db
  | S k => run_days k (D + 1) (calculate_daily_investment_returns D db).2
  end.

(** The effect of [n] consecutive maturity sweeps, the first dated [D], on
    one position. *)
Definition sweeps_row (n : nat) (D : Z) (inv : UserInvestment) : UserInvestment :=
  if bool_decide (status inv = ACTIVE)
     && date_le (maturity_date inv) (D + Z.of_nat n - 1)
     && bool_decide (0 < n)%nat
  then UserInvestment.set_status MATURED inv else inv.

(** The income row written for a paid edge. *)
Definition income_of (uid : Z) (A : Qc) (rates : option (gmap Z Qc)) (r : Referral) : Income :=
  {| inc_user_id := referrer_id r;
     income_type := if decide (level r = 1%Z) then DIRECT_REFERRAL else LEVEL_BONUS;
     inc_amount := A * rate_of rates (level r) / #100;
     from_user_id := Some uid;
     inc_level := Some (level r) |}.

(** The position a purchase creates. *)
Definition new_position (uid pid : Z) (package : InvestmentPackage) (amount : Qc) (today : Z)
  : UserInvestment :=
  {| user_id := uid; package_id := pid; amount_invested := amount;
     investment_date := today;
     returns_start_date := Some (today + 1)%Z;
     maturity_date := Some (today + 1 + duration_days package)%Z;
     total_returns_paid := 0; last_return_date := None;
     status := ACTIVE |}.

(** What one position contributes to [get_total_investment]. *)
Definition counted (uid : Z) (inv : UserInvestment) : Qc :=
  if decide (user_id inv = uid ∧ (status inv = ACTIVE ∨ status inv = MATURED))
  then amount_invested inv else 0.

(** The sum [get_total_investment] takes, as a function of the table. *)
Definition total_of (uid : Z) (table : gmap Z UserInvestment) : Qc :=
  map_fold (λ _ inv total,
              if decide (user_id inv = uid ∧ (status inv = ACTIVE ∨ status inv = MATURED))
              then total + amount_invested inv else total) 0 table.

(** ** Example stores *)

Definition member (sponsor : option Z) : User :=
  {| sponsor_id := sponsor; is_active := true; total_earnings := 0 |}.

Definition package_180 : InvestmentPackage :=
  {| min_amount := #50; max_amount := Some #10000; total_return_percentage := #25;
     duration_days := 180; end_date := None; pkg_status := PKG_ACTIVE |}.

Definition position_200 (st : InvestmentStatus) : UserInvestment :=
  {| user_id := 1; package_id := 7; amount_invested := #200; investment_date := 10;
     returns_start_date := Some 11%Z; maturity_date := Some 191%Z;
     total_returns_paid := 0; last_return_date := None; status := st |}.

Definition db_position (st : InvestmentStatus) : DB :=
  {| wallets := {[ (1%Z, "available_fund") := {| balance := #300; locked_balance := 0 |} ]};
     users := {[ 1%Z := member None ]}; referrals := [];
     packages := {[ 7%Z := package_180 ]};
     investments := {[ 1%Z := position_200 st ]};
     returns := []; transactions := []; incomes := [] |}.

Definition db_locked : DB :=
  {| wallets := {[ (1%Z, "available_fund") := {| balance := #100; locked_balance := #50 |} ]};
     users := {[ 1%Z := member None ]}; referrals := [];
     packages := {[ 7%Z := package_180 ]}; investments := ∅;
     returns := []; transactions := []; incomes := [] |}.

Definition db_no_total_income : DB :=
  {| wallets := {[ (1%Z, "total_gain") := {| balance := 0; locked_balance := 0 |} ]};
     users := {[ 1%Z := member None ]}; referrals := [];
     packages := ∅; investments := ∅;
     returns := []; transactions := []; incomes := [] |}.

Definition edge (referrer lvl : Z) : Referral :=
  {| referrer_id := referrer; referred_id := 3; level := lvl; ref_is_active := true;
     total_commission_earned := 0 |}.

Definition db_upline : DB :=
  {| wallets := ∅;
     users := {[ 1%Z := member None; 2%Z := member None; 3%Z := member (Some 1%Z) ]};
     referrals := [edge 1 1; edge 2 2];
     packages := ∅; investments := ∅;
     returns := []; transactions := []; incomes := [] |}.

Definition rates_10_5 : option (gmap Z Qc) := Some {[ 1%Z := #10; 2%Z := #5 ]}.

Definition db_cycle : DB :=
  {| wallets := ∅;
     users := {[ 1%Z := member (Some 2%Z); 2%Z := member (Some 1%Z) ]};
     referrals := []; packages := ∅; investments := ∅;
     returns := []; transactions := []; incomes := [] |}.

Definition db_income : DB :=
  {| wallets := {[ (1%Z, "total_gain") := {| balance := 0; locked_balance := 0 |};
                   (1%Z, "total_income") := {| balance := 0; locked_balance := 0 |} ]};
     users := {[ 1%Z := member None ]}; referrals := [];
     packages := ∅; investments := ∅;
     returns := []; transactions := []; incomes := [] |}.

Definition db_transfer : DB :=
  {| wallets := {[ (1%Z, "available_fund") := {| balance := #100; locked_balance := #50 |};
                   (2%Z, "available_fund") := {| balance := 0; locked_balance := 0 |} ]};
     users := {[ 1%Z := member None; 2%Z := member None ]}; referrals := [];
     packages := ∅; investments := ∅;
     returns := []; transactions := []; incomes := [] |}.

(** * Proof support *)

Ltac msimpl :=
  unfold bind, ret, raise, modify, get_db, Wallet.row, Wallet.set_balance,
    Wallet.set_locked_balance, Wallet._log_wallet_transaction, query_user,
    first_or_add_wallet in *; simpl in *.

(** Closes a decidable closed proposition by evaluation. *)
Ltac by_compute := by apply (bool_decide_unpack _); vm_compute.

(** Closes [ledger_ok] of a closed store by evaluation. *)
Ltac ledger_by_compute :=
  match goal with
  | |- ledger_ok ?db => change (map_Forall (λ _ w, wallet_ok w) (wallets db)); by_compute
  end.

(** * Lemmas and theorems *)

(** * Ledger *)

Lemma total_income_not_income : "total_income" ∉ Wallet.get_income_wallet_types.
Proof. by apply (bool_decide_unpack _). Qed.

Lemma add_balance_rejects self amount db :
  amount ≤ 0 → Wallet.add_balance self amount db = (Raise "Amount must be positive", db).
Proof. intros Ha. unfold Wallet.add_balance. by rewrite decide_True. Qed.

Lemma add_balance_ok self amount w db :
  0 < amount → wallets db !! self = Some w →
  ∃ db', Wallet.add_balance self amount db = (Return tt, db') ∧
    wallets db' !! self = Some {| balance := balance w + amount; locked_balance := locked_balance w |} ∧
    transactions db' = transactions db ++
      [ {| tx_user_id := self.1; transaction_type := "credit"; tx_wallet_type := self.2; tx_amount := amount |} ] ∧
    (self.2 ∈ Wallet.get_income_wallet_types →
       wallets db' !! (self.1, "total_income") =
         (λ t, {| balance := balance t + amount; locked_balance := locked_balance t |}) <$> wallets db !! (self.1, "total_income")) ∧
    (self.2 ∉ Wallet.get_income_wallet_types → self.2 ≠ "total_income" →
       wallets db' !! (self.1, "total_income") = wallets db !! (self.1, "total_income")) ∧
    (∀ k, k ≠ self → k ≠ (self.1, "total_income") → wallets db' !! k = wallets db !! k) ∧
    users db' = users db ∧ referrals db' = referrals db ∧ packages db' = packages db ∧
    investments db' = investments db ∧ returns db' = returns db ∧ incomes db' = incomes db.
Proof.
  intros Hpos Hw. unfold Wallet.add_balance.
  rewrite decide_False by (by apply Qclt_not_le).
  msimpl. rewrite Hw. simpl.
  destruct self as [uid wt]. simpl in *.
  case_decide as Hinc.
  - unfold Wallet._update_total_income_wallet. msimpl.
    assert (Hne : (uid, "total_income") ≠ (uid, wt)).
    { intros [= <-]. by apply total_income_not_income in Hinc. }
    rewrite lookup_alter_ne by done.
    destruct (wallets db !! (uid, "total_income")) as [t|] eqn:Ht; simpl.
    + rewrite decide_True by done. simpl.
      eexists. split; [reflexivity|]. simpl.
      repeat split; try done.
      * rewrite lookup_alter_ne by done. rewrite lookup_alter_eq, Hw. done.
      * intros _. rewrite lookup_alter_eq, lookup_alter_ne, Ht by done. done.
      * intros k Hk1 Hk2. by rewrite !lookup_alter_ne.
    + eexists. split; [reflexivity|]. simpl.
      repeat split; try done.
      * by rewrite lookup_alter_eq, Hw.
      * intros _. by rewrite lookup_alter_ne.
      * intros k Hk1 Hk2. by rewrite !lookup_alter_ne.
  - eexists. split; [reflexivity|]. simpl.
    repeat split; try done.
    + by rewrite lookup_alter_eq, Hw.
    + intros _ Hne. rewrite lookup_alter_ne; [done|]. congruence.
    + intros k Hk1 Hk2. by rewrite !lookup_alter_ne.
Qed.

Lemma ledger_ok_alter f k db :
  ledger_ok db → (∀ w, wallets db !! k = Some w → wallet_ok w → wallet_ok (f w)) →
  ledger_ok (set_wallets (alter f k) db).
Proof.
  intros Hok Hf k' w'. simpl. destruct (decide (k = k')) as [<-|Hne].
  - rewrite lookup_alter_eq. destruct (wallets db !! k) as [w|] eqn:Hw; [|done].
    intros [= <-]. eauto.
  - rewrite lookup_alter_ne by done. apply Hok.
Qed.

Lemma add_balance_ledger_ok self amount db :
  ledger_ok db → ledger_ok (Wallet.add_balance self amount db).2.
Proof.
  intros Hok. unfold Wallet.add_balance.
  case_decide as Ha; [done|]. apply Qcnot_le_lt in Ha.
  msimpl. destruct (wallets db !! self) as [w|] eqn:Hw; [|done]. simpl.
  assert (Hok1 : ledger_ok (set_wallets (alter (λ w0, {| balance := balance w + amount;
                      locked_balance := locked_balance w0 |}) self) db)).
  { apply ledger_ok_alter; [done|]. intros w0 Hw0 (?&?&?). simplify_eq.
    unfold wallet_ok in *; simpl. repeat split; qc_lra. }
  case_decide; [|done].
  unfold Wallet._update_total_income_wallet. msimpl.
  match goal with |- context [alter ?f self (wallets db) !! ?k] =>
    destruct (alter f self (wallets db) !! k) as [t|] eqn:Ht end; [|done].
  case_decide; [|done]. simpl.
  unfold ledger_ok. simpl. intros k' w'.
  destruct (decide ((self.1, "total_income") = k')) as [<-|Hne].
  - rewrite lookup_alter_eq, Ht. intros [= <-]. apply Hok1 in Ht.
    destruct Ht as (?&?&?). unfold wallet_ok; simpl. repeat split; qc_lra.
  - rewrite lookup_alter_ne by done. apply Hok1.
Qed.

Lemma subtract_balance_ledger_ok self amount db :
  ledger_ok db → ledger_ok (Wallet.subtract_balance self amount db).2.
Proof.
  intros Hok. unfold Wallet.subtract_balance.
  case_decide as Ha; [done|]. apply Qcnot_le_lt in Ha.
  msimpl. destruct (wallets db !! self) as [w|] eqn:Hw; [|done]. simpl.
  case_decide as Hav; [done|]. apply Qcnot_lt_le in Hav. simpl.
  apply ledger_ok_alter; [done|]. intros w0 Hw0 (?&?&?). simplify_eq.
  unfold wallet_ok, Wallet.available_balance in *; simpl. repeat split; qc_lra.
Qed.

Lemma lock_balance_ledger_ok self amount db :
  ledger_ok db → ledger_ok (Wallet.lock_balance self amount db).2.
Proof.
  intros Hok. unfold Wallet.lock_balance.
  case_decide as Ha; [done|]. apply Qcnot_le_lt in Ha.
  msimpl. destruct (wallets db !! self) as [w|] eqn:Hw; [|done]. simpl.
  case_decide as Hav; [done|]. apply Qcnot_lt_le in Hav. simpl.
  apply ledger_ok_alter; [done|]. intros w0 Hw0 (?&?&?). simplify_eq.
  unfold wallet_ok, Wallet.available_balance in *; simpl. repeat split; qc_lra.
Qed.

Lemma unlock_balance_ledger_ok self amount db :
  ledger_ok db → ledger_ok (Wallet.unlock_balance self amount db).2.
Proof.
  intros Hok. unfold Wallet.unlock_balance.
  case_decide as Ha; [done|]. apply Qcnot_le_lt in Ha.
  msimpl. destruct (wallets db !! self) as [w|] eqn:Hw; [|done]. simpl.
  case_decide as Hav; [done|]. apply Qcnot_lt_le in Hav. simpl.
  apply ledger_ok_alter; [done|]. intros w0 Hw0 (?&?&?). simplify_eq.
  unfold wallet_ok in *; simpl. repeat split; qc_lra.
Qed.

Lemma transfer_to_ledger_ok self target amount db :
  ledger_ok db → ledger_ok (Wallet.transfer_to self target amount db).2.
Proof.
  intros Hok. unfold Wallet.transfer_to.
  case_decide as Ha; [done|].
  unfold bind at 1. unfold Wallet.row at 1.
  destruct (wallets db !! self) as [w|] eqn:Hw; [|done].
  case_decide as Hav; [done|].
  unfold bind at 1.
  pose proof (subtract_balance_ledger_ok self amount db Hok) as H1.
  destruct (Wallet.subtract_balance self amount db) as [[[]|e] db1]; [|done].
  simpl in H1. unfold bind at 1.
  pose proof (add_balance_ledger_ok target amount db1 H1) as H2.
  destruct (Wallet.add_balance target amount db1) as [[[]|e] db2]; [|done].
  done.
Qed.

(** C9 (as amended). Crediting a wallet with a non-positive amount raises
    and changes nothing.  Crediting it with a positive amount adds the amount
    to its balance and appends one "credit" audit transaction; when the
    wallet is of an income type, the same user's [total_income] wallet rises
    by the same amount if that wallet exists, and is neither created nor
    changed if it does not; no other wallet changes. *)
Theorem credit_spec (db : DB) (self : Z * string) (amount : Qc) (w : Wallet) :
  wallets db !! self = Some w →
  (amount ≤ 0 → Wallet.add_balance self amount db = (Raise "Amount must be positive", db))
  ∧ (0 < amount →
     ∃ db', Wallet.add_balance self amount db = (Return tt, db')
       ∧ wallets db' !! self
         = Some {| balance := balance w + amount; locked_balance := locked_balance w |}
       ∧ transactions db' = transactions db ++
           [ {| tx_user_id := self.1; transaction_type := "credit";
                tx_wallet_type := self.2; tx_amount := amount |} ]
       ∧ (self.2 ∈ Wallet.get_income_wallet_types →
          wallets db' !! (self.1, "total_income")
          = (λ t, {| balance := balance t + amount; locked_balance := locked_balance t |})
              <$> wallets db !! (self.1, "total_income"))
       ∧ (∀ k, k ≠ self → k ≠ (self.1, "total_income") → wallets db' !! k = wallets db !! k)).
Proof.
  intros Hw. split; [apply add_balance_rejects|].
  intros Hpos. destruct (add_balance_ok self amount w db Hpos Hw)
    as (db' & Hrun & Hself & Htx & Hinc & _ & Hfr & _).
  exists db'. eauto.
Qed.

Lemma credit_spec_example :
  wallets db_income !! (1%Z, "total_gain") = Some {| balance := 0; locked_balance := 0 |}
  ∧ 0 < #10
  ∧ ∃ db', Wallet.add_balance (1%Z, "total_gain") #10 db_income = (Return tt, db')
      ∧ wallets db' !! (1%Z, "total_income")
        = Some {| balance := 0 + #10; locked_balance := 0 |}.
Proof.
  split; [reflexivity|]. split; [by_compute|].
  destruct (credit_spec db_income (1%Z, "total_gain") #10 _ eq_refl) as [_ Hok].
  destruct (Hok ltac:(by_compute)) as (db' & Hrun & _ & _ & Hinc & _).
  exists db'. split; [exact Hrun|].
  specialize (Hinc ltac:(by_compute)). cbn [fst snd] in Hinc. rewrite Hinc. reflexivity.
Defined.

(** C9, as stated, fails: a user with a [total_gain] wallet and no
    [total_income] wallet is credited, and no [total_income] balance rises. *)
Lemma credit_skips_missing_total_income_wallet :
  "total_gain" ∈ Wallet.get_income_wallet_types
  ∧ (Wallet.add_balance (1%Z, "total_gain") #10 db_no_total_income).1 = Return tt
  ∧ wallets (Wallet.add_balance (1%Z, "total_gain") #10 db_no_total_income).2
      !! (1%Z, "total_income") = None
  ∧ wallet_balance (Wallet.add_balance (1%Z, "total_gain") #10 db_no_total_income).2
      (1%Z, "total_income")
    ≠ wallet_balance db_no_total_income (1%Z, "total_income") + #10.
Proof. by_compute. Qed.

(** * Return arithmetic *)

Lemma percentage_of_float (p : Qc) :
  py_truediv (PyFloat p) (PyInt 100) = Return (PyFloat (p / #100)).
Proof.
  unfold py_truediv. cbn [coerce value]. rewrite decide_False; [done|]. by_compute.
Qed.

Lemma expected_total_return_raises inv db :
  UserInvestment.expected_total_return inv db
  = (Raise (match UserInvestment.package db inv with
            | Some _ => "TypeError"
            | None => "AttributeError"
            end), db).
Proof.
  unfold UserInvestment.expected_total_return, UserInvestment.the_package, bind, lift.
  destruct (UserInvestment.package db inv); [|done]. by rewrite percentage_of_float.
Qed.

Lemma expected_daily_return_raises inv db :
  UserInvestment.expected_daily_return inv db
  = (Raise (match UserInvestment.package db inv with
            | Some _ => "TypeError"
            | None => "AttributeError"
            end), db).
Proof.
  unfold UserInvestment.expected_daily_return, UserInvestment.the_package,
    InvestmentPackage.calculate_daily_return, bind, lift.
  destruct (UserInvestment.package db inv); [|done]. by rewrite percentage_of_float.
Qed.

Lemma returns_remaining_raises inv db :
  UserInvestment.returns_remaining inv db
  = (Raise (match UserInvestment.package db inv with
            | Some _ => "TypeError"
            | None => "AttributeError"
            end), db).
Proof.
  unfold UserInvestment.returns_remaining, bind. by rewrite expected_total_return_raises.
Qed.

Lemma to_dict_raises inv db :
  UserInvestment.to_dict inv db
  = (Raise (match UserInvestment.package db inv with
            | Some _ => "TypeError"
            | None => "AttributeError"
            end), db).
Proof. unfold UserInvestment.to_dict, bind. by rewrite expected_total_return_raises. Qed.

Lemma calculate_daily_return_cases inv db :
  _calculate_daily_return inv db
  = match UserInvestment.package db inv with
    | None => (Return (PyInt 0), db)
    | Some package =>
        if decide ((0 < duration_days package)%Z ∧ 0 ≤ total_return_percentage package)
        then (Raise "TypeError", db) else (Return (PyInt 0), db)
    end.
Proof.
  unfold _calculate_daily_return, bind, get_db, lift, ret.
  destruct (UserInvestment.package db inv) as [package|]; [|done].
  destruct (decide (duration_days package ≤ 0)%Z) as [Hd|Hd].
  { rewrite decide_False; [done|]. intros [? _]. lia. }
  destruct (decide (total_return_percentage package < 0)) as [Hp|Hp].
  { rewrite decide_False; [done|]. intros [_ ?]. by apply (Qclt_not_le _ _ Hp). }
  rewrite decide_True; [|split; [lia|by apply Qcnot_lt_le]].
  by rewrite percentage_of_float.
Qed.

Lemma calculate_daily_return_not_positive inv db r db' :
  _calculate_daily_return inv db = (Return r, db') → r = PyInt 0.
Proof.
  rewrite calculate_daily_return_cases.
  destruct (UserInvestment.package db inv); [case_decide|]; by intros [= <- _].
Qed.

(** * Purchase *)

Lemma transactional_raise {A} (m : M A) db e db' :
  transactional m db = (Raise e, db') → db' = db.
Proof. unfold transactional. destruct (m db) as [[a|e'] d]; by intros [= _ <-]. Qed.

Lemma purchase_reply_raises uid id db :
  ∃ e, InvestmentsApi.purchase_reply uid id db = (Raise e, db).
Proof.
  unfold InvestmentsApi.purchase_reply, bind, get_db, raise.
  destruct (investments db !! id) as [inv|]; [|eauto].
  rewrite to_dict_raises. eauto.
Qed.

Lemma purchase_rejected_unchanged uid pid amount today db c m db' :
  InvestmentsApi.purchase_investment uid pid amount today db = (Rejected c m, db') →
  c ≠ 500%Z → db' = db.
Proof.
  unfold InvestmentsApi.purchase_investment, InvestmentsApi.error_reply.
  case_decide; [by intros [= _ _ <-]|]. case_decide; [by intros [= _ _ <-]|].
  destruct (packages db !! pid) as [package|]; [|by intros [= _ _ <-]].
  destruct (negb _); [by intros [= _ _ <-]|].
  destruct (end_date package); [by intros [= _ _ <-]|].
  case_decide; [by intros [= _ _ <-]|].
  destruct (match max_amount package with Some _ => _ | None => _ end); [by intros [= _ _ <-]|].
  destruct (users db !! uid) as [user|]; [|by intros [= _ _ <-]].
  destruct (negb _); [by intros [= _ _ <-]|].
  destruct (InvestmentsApi.purchase_body uid pid package amount today db) as [[[reply|id]|e] db1];
    [by intros [= _ <-]| |by intros [= _ _ <-]].
  destruct (purchase_reply_raises uid id db1) as [e ->]. by intros [= <- _ _].
Qed.

(** C4. The funds check of the purchase handler compares the purchase
    amount with the wallet's [balance], not with its available balance: a
    wallet holding 100 with 50 locked has 50 available, and a purchase of 80
    is not refused: the position is stored and the wallet is debited to 20
    (the reply, built after the commit, is the handler's error reply). *)
Lemma purchase_spends_locked_funds :
  (Wallet.available_balance <$> wallets db_locked !! (1%Z, "available_fund")) = Some #50
  ∧ #50 < #80
  ∧ (InvestmentsApi.purchase_investment 1 7 #80 10 db_locked).1
    = Rejected 500 "Error processing investment: TypeError"
  ∧ wallets (InvestmentsApi.purchase_investment 1 7 #80 10 db_locked).2 !! (1%Z, "available_fund")
    = Some {| balance := #20; locked_balance := #50 |}.
Proof. by_compute. Qed.

(** C5. The purchase debit takes a wallet that satisfies the ledger
    invariant to one whose balance is below its locked balance. *)
Lemma purchase_debit_breaks_ledger_invariant :
  ledger_ok db_locked
  ∧ ¬ ledger_ok (InvestmentsApi.purchase_investment 1 7 #80 10 db_locked).2.
Proof.
  split.
  - intros k w Hk. unfold db_locked in Hk. cbn [wallets] in Hk.
    apply lookup_singleton_Some in Hk as [<- <-].
    unfold wallet_ok; simpl. repeat split; by_compute.
  - intros Hok.
    assert (Hw : wallets (InvestmentsApi.purchase_investment 1 7 #80 10 db_locked).2
                   !! (1%Z, "available_fund")
                 = Some {| balance := #20; locked_balance := #50 |}) by by_compute.
    destruct (Hok _ _ Hw) as (_ & _ & Hle). revert Hle. by_compute.
Qed.

(** * Processing one return *)

Lemma first_or_add_wallet_lookup k db :
  is_Some (wallets (first_or_add_wallet k db).2 !! k).
Proof.
  unfold first_or_add_wallet, modify. simpl.
  destruct (wallets db !! k) eqn:Hk; [by rewrite Hk|]. by rewrite lookup_insert_eq.
Qed.

Lemma process_investment_return_ok id amt D db inv s :
  investments db !! id = Some inv → returns_start_date inv = Some s →
  is_Some (UserInvestment.package db inv) → 0 < amt →
  (InvestmentService._process_investment_return id amt D db).1 = true.
Proof.
  intros Hinv Hs [pkg Hpkg] Hpos.
  unfold InvestmentService._process_investment_return, transactional.
  unfold InvestmentService.process_investment_return_body.
  unfold bind at 1. unfold get_db at 1. rewrite Hinv.
  unfold bind at 1.
  pose proof (first_or_add_wallet_lookup (user_id inv, "total_gain") db) as [w Hw].
  destruct (first_or_add_wallet (user_id inv, "total_gain") db) as [r0 db0] eqn:H0.
  assert (r0 = Return tt) as ->.
  { revert H0. unfold first_or_add_wallet, modify. by intros [= <- <-]. }
  simpl in Hw. rewrite Hpkg. unfold bind at 1.
  destruct (add_balance_ok _ _ _ _ Hpos Hw) as (db2 & -> & _).
  unfold InvestmentService.create_bonus_income. msimpl. by rewrite Hs.
Qed.

(** * The accrual loop *)

Lemma elem_of_eligible D db id :
  id ∈ _get_eligible_investments D db ↔
  ∃ inv, investments db !! id = Some inv ∧ eligible D inv = true.
Proof.
  unfold _get_eligible_investments. rewrite list_elem_of_fmap. split.
  - intros [[k inv] [-> Hin]]. apply elem_of_map_to_list in Hin.
    apply map_lookup_filter_Some in Hin as [? ?]. eauto.
  - intros (inv & Hinv & He). exists (id, inv). split; [done|].
    apply elem_of_map_to_list, map_lookup_filter_Some. done.
Qed.

Lemma accrue_skips D acc id : accrue D acc id = acc.
Proof.
  destruct acc as [totals db]. unfold accrue.
  destruct (investments db !! id) as [inv|]; [|done].
  destruct (_calculate_daily_return inv db) as [[r|e] db1] eqn:Hr; [|done].
  apply calculate_daily_return_not_positive in Hr as ->.
  rewrite decide_False; [done|]. by_compute.
Qed.

Lemma foldl_accrue_skips D ids acc : foldl (accrue D) acc ids = acc.
Proof. induction ids as [|id ids IH]; [done|]. simpl. by rewrite accrue_skips. Qed.

(** The calculation of the daily return never gives a positive amount, so
    a daily run is the maturity sweep and nothing else. *)
Lemma daily_run_is_sweep D db :
  calculate_daily_investment_returns D db
  = ({| processed_count := 0; total_amount := 0 |}, _update_investment_statuses D db).
Proof. unfold calculate_daily_investment_returns. by rewrite foldl_accrue_skips. Qed.

(** * The maturity sweep and the daily run *)

Lemma sweep_row_idemp D inv : sweep_row D (sweep_row D inv) = sweep_row D inv.
Proof.
  unfold sweep_row.
  destruct (bool_decide (status inv = ACTIVE) && date_le (maturity_date inv) D) eqn:Hc; [|by rewrite Hc].
  done.
Qed.

Lemma update_investment_statuses_idemp D db :
  _update_investment_statuses D (_update_investment_statuses D db) = _update_investment_statuses D db.
Proof.
  unfold _update_investment_statuses, set_investments. simpl. f_equal.
  rewrite <- map_fmap_compose. apply map_fmap_ext. intros k inv _. apply sweep_row_idemp.
Qed.

Lemma eligible_record_return D amt inv : eligible D (record_return amt D inv) = false.
Proof.
  unfold eligible. simpl. rewrite (bool_decide_eq_false_2 (D < D)%Z) by lia.
  by rewrite andb_false_r.
Qed.

Lemma sweep_row_fields D inv :
  total_returns_paid (sweep_row D inv) = total_returns_paid inv ∧
  last_return_date (sweep_row D inv) = last_return_date inv ∧
  amount_invested (sweep_row D inv) = amount_invested inv ∧
  package_id (sweep_row D inv) = package_id inv ∧
  maturity_date (sweep_row D inv) = maturity_date inv.
Proof. unfold sweep_row. by destruct (_ && _). Qed.

(** What a run on [D] does to one position. *)
Lemma daily_run_row D db id :
  investments (calculate_daily_investment_returns D db).2 !! id
  = sweep_row D <$> investments db !! id.
Proof. rewrite daily_run_is_sweep. simpl. by rewrite lookup_fmap. Qed.

Lemma daily_run_returns D db :
  returns (calculate_daily_investment_returns D db).2 = returns db.
Proof. by rewrite daily_run_is_sweep. Qed.

(** C2. Idempotent daily accrual: running the daily return calculation a
    second time on the same date leaves the store as the first run left it,
    so every position has the same [total_returns_paid] and the return log
    has the same rows; a position whose [total_returns_paid] the first run
    changed has [last_return_date = D] and is no longer selected for [D]. *)
Theorem daily_accrual_idempotent (D : Z) (db : DB) :
  let once := (calculate_daily_investment_returns D db).2 in
  let twice := (calculate_daily_investment_returns D once).2 in
  twice = once
  ∧ (∀ id, total_returns_paid <$> investments twice !! id
           = total_returns_paid <$> investments once !! id)
  ∧ returns twice = returns once
  ∧ (∀ id inv0 inv, investments db !! id = Some inv0 → investments once !! id = Some inv →
       total_returns_paid inv ≠ total_returns_paid inv0 →
       last_return_date inv = Some D ∧ id ∉ _get_eligible_investments D once).
Proof.
  simpl. set (once := (calculate_daily_investment_returns D db).2).
  assert (Hid : (calculate_daily_investment_returns D once).2 = once).
  { unfold once. rewrite !daily_run_is_sweep. simpl. apply update_investment_statuses_idemp. }
  rewrite Hid. split; [done|]. split; [done|]. split; [done|].
  intros id inv0 inv H0 H1 Hne. destruct Hne.
  unfold once in H1. rewrite daily_run_row, H0 in H1. injection H1 as <-.
  apply sweep_row_fields.
Qed.

(** ** Eligibility *)

Lemma eligible_iff_spec D inv : eligible D inv = true ↔ eligible_spec D inv.
Proof.
  unfold eligible, eligible_spec, date_le, date_gt. rewrite !andb_true_iff, bool_decide_eq_true.
  split.
  - intros [[[Hs Hr] Hm] Hl]. split; [done|].
    destruct (returns_start_date inv) as [s|]; [|done]. apply bool_decide_eq_true in Hr.
    destruct (maturity_date inv) as [m|]; [|done]. apply bool_decide_eq_true in Hm.
    split; [eauto|]. split; [eauto|].
    destruct (last_return_date inv) as [l|]; [|by left]. apply bool_decide_eq_true in Hl. eauto.
  - intros (Hs & (s & -> & Hr) & (m & -> & Hm) & Hl).
    rewrite !bool_decide_eq_true. repeat split; try done.
    destruct Hl as [->|(l & -> & Hl)]; [done|]. by apply bool_decide_eq_true.
Qed.

Lemma is_eligible_for_return_today_eq D inv :
  UserInvestment.is_eligible_for_return_today D inv = eligible D inv.
Proof.
  unfold UserInvestment.is_eligible_for_return_today, eligible, date_le, date_gt.
  destruct (returns_start_date inv), (maturity_date inv), (last_return_date inv);
    rewrite ?andb_false_r, ?andb_true_r, ?andb_assoc; done.
Qed.

(** C6. Eligibility: a position is selected for a return on [D] exactly
    when it is ACTIVE, its returns have started ([returns_start_date ≤ D]),
    it has not matured ([D < maturity_date], strictly) and it has no return
    dated [D] or later; the model property [is_eligible_for_return_today]
    agrees; and every row the daily run appends, and every position whose
    [total_returns_paid] it changes, is dated before the position's maturity
    date. *)
Theorem accrual_eligibility (D : Z) (db : DB) :
  (∀ id, id ∈ _get_eligible_investments D db ↔
         ∃ inv, investments db !! id = Some inv ∧ eligible_spec D inv)
  ∧ (∀ inv, UserInvestment.is_eligible_for_return_today D inv = true ↔ eligible_spec D inv)
  ∧ (∃ extra, returns (calculate_daily_investment_returns D db).2 = returns db ++ extra ∧
       ∀ r, r ∈ extra → return_date r = D ∧
         ∃ inv m, investments db !! investment_id r = Some inv ∧
                  maturity_date inv = Some m ∧ (return_date r < m)%Z)
  ∧ (∀ id inv inv', investments db !! id = Some inv →
       investments (calculate_daily_investment_returns D db).2 !! id = Some inv' →
       total_returns_paid inv' ≠ total_returns_paid inv →
       ∃ m, maturity_date inv = Some m ∧ (D < m)%Z).
Proof.
  split; [|split; [|split]].
  - intros id. rewrite elem_of_eligible. by setoid_rewrite eligible_iff_spec.
  - intros inv. by rewrite is_eligible_for_return_today_eq, eligible_iff_spec.
  - exists []. rewrite daily_run_returns, app_nil_r. split; [done|].
    intros r Hin. by apply elem_of_nil in Hin.
  - intros id inv inv' Hinv. rewrite daily_run_row, Hinv. simpl. intros [= <-] Hne.
    destruct Hne. apply sweep_row_fields.
Qed.


(** C1. The scheduled accrual does not pay the amount the claim gives.  A
    position of 200 in a package paying 25% over 180 days, selected for day
    20 with nothing paid yet, is owed [max 0 (min (200 * 25/100 / 180)
    (50 - 0))], which is positive.  The calculation multiplies the [Decimal] principal
    by the [float] percentage, which raises; the loop skips the position;
    the run reports nothing processed, credits no wallet, pays nothing
    and logs nothing. *)
Lemma scheduled_accrual_pays_nothing :
  eligible 20 (position_200 ACTIVE) = true
  ∧ 0 < Qcmax 0 (Qcmin (#200 * #25 / #100 / #180) (#200 * #25 / #100 - 0))
  ∧ _calculate_daily_return (position_200 ACTIVE) (db_position ACTIVE)
    = (Raise "TypeError", db_position ACTIVE)
  ∧ (calculate_daily_investment_returns 20 (db_position ACTIVE)).1
    = {| processed_count := 0; total_amount := 0 |}
  ∧ wallets (calculate_daily_investment_returns 20 (db_position ACTIVE)).2
    = wallets (db_position ACTIVE)
  ∧ total_returns_paid
      <$> investments (calculate_daily_investment_returns 20 (db_position ACTIVE)).2 !! 1%Z
    = Some 0
  ∧ returns (calculate_daily_investment_returns 20 (db_position ACTIVE)).2 = [].
Proof. by_compute. Qed.

(** ** Manual distribution *)

Lemma manual_distribute_outcome id amount D db :
  manual_distribute_returns id amount D db
  = (Failure (match investments db !! id with
              | None => "Investment not found"
              | Some inv =>
                  if decide (amount ≤ 0) then "Amount must be greater than 0"
                  else match UserInvestment.package db inv with
                       | Some _ => "TypeError"
                       | None => "AttributeError"
                       end
              end), db).
Proof.
  unfold manual_distribute_returns. destruct (investments db !! id) as [inv|]; [|done].
  case_decide; [done|]. by rewrite returns_remaining_raises.
Qed.

Lemma manual_distribute_failure id amount D db m db1 :
  manual_distribute_returns id amount D db = (Failure m, db1) → db1 = db.
Proof. rewrite manual_distribute_outcome. by intros [= _ <-]. Qed.

(** C10. A manual distribution of a positive amount within the remaining
    cap does not succeed, so it consumes no token: for a position of 200 at
    25% with nothing paid (50 remaining), distributing 5 on day 20 fails
    on the computation of the remaining returns ([Decimal] times [float]),
    nothing is credited, [last_return_date] stays unset and the position
    is still selected for day 20. *)
Lemma manual_distribution_never_credits :
  0 < #5
  ∧ #5 ≤ #200 * #25 / #100 - total_returns_paid (position_200 ACTIVE)
  ∧ manual_distribute_returns 1 #5 20 (db_position ACTIVE)
    = (Failure "TypeError", db_position ACTIVE)
  ∧ last_return_date
      <$> investments (manual_distribute_returns 1 #5 20 (db_position ACTIVE)).2 !! 1%Z
    = Some None
  ∧ 1%Z ∈ _get_eligible_investments 20 (manual_distribute_returns 1 #5 20 (db_position ACTIVE)).2.
Proof. by_compute. Qed.

(** * Commissions *)

Lemma calculate_commission_rate A lvl rates :
  calculate_commission A lvl rates = A * rate_of rates lvl / #100.
Proof. done. Qed.

Lemma target_not_total_income r uid : target r ≠ (uid, "total_income").
Proof. unfold target. case_decide; congruence. Qed.

Lemma pay_commission_skip uid A rates ir db :
  ¬ payable db A rates ir.2 →
  pay_commission uid A rates ir db = (Return [], db).
Proof.
  intros Hn. unfold pay_commission. rewrite calculate_commission_rate.
  case_decide as Hpos; [|done]. msimpl.
  destruct (users db !! referrer_id ir.2) as [u|] eqn:Hu; [|done].
  destruct (is_active u) eqn:Ha; [|done].
  destruct Hn. split; [done|]. by rewrite Hu; simpl; rewrite Ha.
Qed.

Lemma pay_commission_pay uid A rates ir db :
  payable db A rates ir.2 → is_Some (users db !! uid) →
  ∃ db', pay_commission uid A rates ir db = (Return [commission_of A rates ir.2], db') ∧
    (∃ w, wallets db' !! target ir.2 = Some w ∧
          balance w = wallet_balance db (target ir.2) + A * rate_of rates (level ir.2) / #100) ∧
    (∀ k, k ≠ target ir.2 → k ≠ (referrer_id ir.2, "total_income") →
          wallets db' !! k = wallets db !! k) ∧
    (∀ id, is_active <$> users db' !! id = is_active <$> users db !! id) ∧
    transactions db' = transactions db ++ [credit_of A rates ir.2].
Proof.
  intros [Hpos Hact] [buyer Hbuyer]. unfold pay_commission.
  rewrite calculate_commission_rate. rewrite decide_True by done.
  unfold bind at 1. unfold get_db at 1.
  destruct (users db !! referrer_id ir.2) as [u|] eqn:Hu; [|done].
  simpl in Hact. injection Hact as Hact. rewrite Hact.
  unfold bind at 1.
  pose proof (first_or_add_wallet_lookup (referrer_id ir.2, wallet_type_for (level ir.2)) db) as [w Hw].
  destruct (first_or_add_wallet (referrer_id ir.2, wallet_type_for (level ir.2)) db) as [r0 db0] eqn:H0.
  assert (Hfr0 : r0 = Return tt ∧ users db0 = users db ∧
            transactions db0 = transactions db ∧
            balance w = wallet_balance db (target ir.2) ∧
            ∀ k, k ≠ target ir.2 → wallets db0 !! k = wallets db !! k).
  { revert H0 Hw. unfold first_or_add_wallet, modify, wallet_balance, target, wallet_type_for.
    intros [= <- <-]. simpl.
    destruct (wallets db !! _) as [w0|] eqn:Hw0.
    - rewrite Hw0. intros [= <-]. done.
    - rewrite lookup_insert_eq. intros [= <-]. repeat split; try done.
      intros k Hk. by rewrite lookup_insert_ne. }
  destruct Hfr0 as (-> & Hu0 & Ht0 & Hbal & Hfr). simpl in Hw.
  unfold bind at 1. unfold query_user at 1. rewrite Hu0, Hbuyer.
  unfold bind at 1.
  destruct (add_balance_ok _ _ _ _ Hpos Hw) as (db2 & -> & Hw2 & Ht2 & _ & _ & Hfr2 & Hu2 & _).
  msimpl. eexists. split; [reflexivity|]. simpl. split; [|split; [|split]].
  - eexists. split; [exact Hw2|]. simpl. by rewrite Hbal.
  - intros k Hk1 Hk2. rewrite Hfr2 by done. by apply Hfr.
  - intros id. rewrite Hu2, Hu0. destruct (decide (referrer_id ir.2 = id)) as [<-|Hne].
    + rewrite lookup_alter_eq, Hu. done.
    + by rewrite lookup_alter_ne.
  - by rewrite Ht2, Ht0.
Qed.

Lemma payable_ext db1 db2 A rates r :
  (∀ id, is_active <$> users db1 !! id = is_active <$> users db2 !! id) →
  payable db1 A rates r ↔ payable db2 A rates r.
Proof. intros H. unfold payable. by rewrite H. Qed.

Lemma filter_payable_ext db1 db2 A rates (rows : list Referral) :
  (∀ id, is_active <$> users db1 !! id = is_active <$> users db2 !! id) →
  filter (payable db1 A rates) rows = filter (payable db2 A rates) rows.
Proof.
  intros H. induction rows as [|r rows IH]; [done|].
  rewrite !filter_cons, IH.
  destruct (decide (payable db1 A rates r)) as [H1|H1], (decide (payable db2 A rates r)) as [H2|H2];
    try done; by apply (payable_ext db1 db2 A rates r H) in H1 || apply (payable_ext db1 db2 A rates r H) in H2.
Qed.

Lemma wallet_balance_ext db1 db2 k :
  wallets db1 !! k = wallets db2 !! k → wallet_balance db1 k = wallet_balance db2 k.
Proof. unfold wallet_balance. by intros ->. Qed.

Lemma pay_commissions_spec uid A rates rows db :
  is_Some (users db !! uid) →
  let paid := filter (payable db A rates) rows.*2 in
  ∃ db', pay_commissions uid A rates rows db = (Return (commission_of A rates <$> paid), db') ∧
    (∀ id, is_active <$> users db' !! id = is_active <$> users db !! id) ∧
    transactions db' = transactions db ++ (credit_of A rates <$> paid) ∧
    (∀ k, (∀ r, r ∈ paid → k ≠ target r ∧ k ≠ (referrer_id r, "total_income")) →
          wallets db' !! k = wallets db !! k) ∧
    (NoDup (referrer_id <$> rows.*2) →
     ∀ r, r ∈ paid →
       ∃ w, wallets db' !! target r = Some w ∧
            balance w = wallet_balance db (target r) + A * rate_of rates (level r) / #100).
Proof.
  revert db. induction rows as [|ir rows IH]; intros db Hbuyer; simpl.
  { eexists. split; [reflexivity|]. rewrite app_nil_r. repeat split; try done.
    intros _ r Hr. by apply elem_of_nil in Hr. }
  rewrite filter_cons. destruct (decide (payable db A rates ir.2)) as [Hp|Hp].
  - destruct (pay_commission_pay uid A rates ir db Hp Hbuyer)
      as (db1 & Hpay & (w1 & Hw1 & Hb1) & Hfr1 & Hu1 & Ht1).
    assert (Hbuyer1 : is_Some (users db1 !! uid)).
    { specialize (Hu1 uid). destruct Hbuyer as [b Hb]. rewrite Hb in Hu1.
      destruct (users db1 !! uid); [eauto|done]. }
    destruct (IH db1 Hbuyer1) as (db' & Hrest & Hu' & Ht' & Hfr' & Hnd').
    rewrite (filter_payable_ext db1 db A rates) in * by done.
    unfold bind. rewrite Hpay, Hrest. eexists. split; [reflexivity|].
    split; [intros id; by rewrite Hu', Hu1|].
    split; [by rewrite Ht', Ht1, fmap_cons, <- app_assoc|]. split.
    + intros k Hk. rewrite Hfr'.
      * apply Hfr1; apply (Hk ir.2); by left.
      * intros r Hr. apply Hk. by right.
    + intros Hnd r Hr. simpl in Hnd.
      pose proof (NoDup_cons_1_1 _ _ Hnd) as Hhd. apply NoDup_cons_1_2 in Hnd.
      apply elem_of_cons in Hr as [->|Hr].
      * exists w1. split; [|done]. rewrite Hfr'; [done|].
        intros r Hr. split; [|apply target_not_total_income].
        intros Heq. apply Hhd. apply list_elem_of_fmap. exists r.
        split; [by injection Heq|]. by apply list_elem_of_filter in Hr as [_ ?].
      * destruct (Hnd' Hnd r Hr) as (w & Hw & Hb). exists w. split; [done|].
        rewrite Hb. f_equal. apply wallet_balance_ext, Hfr1; [|apply target_not_total_income].
        intros Heq. apply Hhd. apply list_elem_of_fmap. exists r.
        split; [by injection Heq|]. by apply list_elem_of_filter in Hr as [_ ?].
  - destruct (IH db Hbuyer) as (db' & Hrest & Hu' & Ht' & Hfr' & Hnd').
    unfold bind. rewrite (pay_commission_skip uid A rates ir db Hp), Hrest. eexists. split; [reflexivity|].
    split; [done|]. split; [done|]. split; [done|].
    intros Hnd. apply Hnd'. simpl in Hnd. by apply NoDup_cons_1_2 in Hnd.
Qed.

Lemma sum_commissions A rates (paid : list Referral) :
  sumQ (c_amount <$> (commission_of A rates <$> paid))
  = A * sumQ ((λ r, rate_of rates (level r)) <$> paid) / #100.
Proof.
  induction paid as [|r paid IH].
  - simpl. qc_to_q. field.
  - rewrite !fmap_cons. cbn [sumQ foldr]. fold (sumQ (c_amount <$> (commission_of A rates <$> paid))).
    fold (sumQ ((λ r, rate_of rates (level r)) <$> paid)). rewrite IH.
    cbn [c_amount commission_of]. qc_to_q. field.
Qed.

(** C3. Commission distribution, for a purchase of amount [A] by a user
    whose upline edges have distinct referrers: one commission is paid per
    upline edge with a positive commission and an active referrer, and none
    otherwise.  The referrer of a paid edge of level [i] receives
    [A * r_i / 100] in the [total_referral] wallet for level 1 and in the
    [level_bonus] wallet for the other levels; the wallet exists afterwards
    even if it did not before.  The audit log grows by exactly one credit
    per paid edge, no wallet other than those credited (and, through the
    credit primitive, the [total_income] aggregate of the same referrers)
    changes, and the commissions paid add up to [A * Σ r_i / 100]. *)
Theorem commission_conservation (db : DB) (uid : Z) (A : Qc) (rates : option (gmap Z Qc)) :
  is_Some (users db !! uid) →
  NoDup (referrer_id <$> (upline_referrals uid db).*2) →
  let paid := filter (payable db A rates) (upline_referrals uid db).*2 in
  ∃ db',
    distribute_commissions uid A rates db = (Return (commission_of A rates <$> paid), db')
    ∧ (∀ r, r ∈ paid →
         ∃ w, wallets db' !! (referrer_id r,
                 if decide (level r = 1%Z) then "total_referral" else "level_bonus") = Some w ∧
              balance w = wallet_balance db (target r) + A * rate_of rates (level r) / #100)
    ∧ (∀ k, (∀ r, r ∈ paid → k ≠ target r ∧ k ≠ (referrer_id r, "total_income")) →
            wallets db' !! k = wallets db !! k)
    ∧ transactions db' = transactions db ++ (credit_of A rates <$> paid)
    ∧ sumQ (c_amount <$> (commission_of A rates <$> paid))
      = A * sumQ ((λ r, rate_of rates (level r)) <$> paid) / #100.
Proof.
  intros Hbuyer Hnd. simpl. unfold distribute_commissions. unfold bind, get_db.
  destruct (pay_commissions_spec uid A rates (upline_referrals uid db) db Hbuyer)
    as (db' & Hrun & _ & Htx & Hfr & Hpaid).
  exists db'. split; [done|]. split; [by apply Hpaid|]. split; [done|]. split; [done|].
  apply sum_commissions.
Qed.

Lemma commission_conservation_example :
  is_Some (users db_upline !! 3%Z)
  ∧ NoDup (referrer_id <$> (upline_referrals 3 db_upline).*2)
  ∧ ∃ db', (distribute_commissions 3 #1000 rates_10_5 db_upline).2 = db'
      ∧ (∃ w, wallets db' !! (1%Z, "total_referral") = Some w ∧ balance w = 0 + #1000 * #10 / #100)
      ∧ (∃ w, wallets db' !! (2%Z, "level_bonus") = Some w ∧ balance w = 0 + #1000 * #5 / #100).
Proof.
  split; [by_compute|]. split; [by_compute|].
  destruct (commission_conservation db_upline 3 #1000 rates_10_5
              ltac:(by_compute) ltac:(by_compute)) as (db' & Hrun & Hpaid & _).
  exists db'. split; [by rewrite Hrun|]. split.
  - apply (Hpaid (edge 1 1)). by_compute.
  - apply (Hpaid (edge 2 2)). by_compute.
Defined.

(** * Referral chain *)

Lemma create_referral_chain_loop_spec users new_user_id max_levels cur lvl visited acc :
  ∃ ext, create_referral_chain_loop users new_user_id max_levels cur lvl visited acc = acc ++ ext ∧
    (Z.of_nat (length ext) ≤ Z.max 0 (max_levels + 1 - lvl))%Z ∧
    (∀ i r, ext !! i = Some r → level r = (lvl + Z.of_nat i)%Z) ∧
    NoDup (referrer_id <$> ext) ∧
    (∀ r, r ∈ ext → (referrer_id r ∉ visited) ∧ referrer_id r ≠ 0%Z ∧
                    referred_id r = new_user_id ∧ ref_is_active r = true).
Proof.
  funelim (create_referral_chain_loop users new_user_id max_levels cur lvl visited acc).
  1-3: (exists []; rewrite app_nil_r; split; [done|]; split; [simpl; lia|];
        split; [by intros i r Hi|]; split; [apply NoDup_nil_2|];
        by intros r Hr%elem_of_nil).
  - match goal with IH : ∃ _, _ |- _ => destruct IH as (ext & Hext & Hlen & Hlv & Hnd & Hall) end.
    eexists (_ :: ext). split; [rewrite Hext; by rewrite <- app_assoc|].
    split; [simpl; lia|]. split; [|split].
    + intros [|i] r; simpl.
      * intros [= <-]. simpl. lia.
      * intros Hi. rewrite (Hlv i r Hi). lia.
    + simpl. apply NoDup_cons_2; [|done].
      intros Hin. apply list_elem_of_fmap in Hin as (r & Hr & Hin).
      destruct (Hall r Hin) as (Hv & _). apply Hv. rewrite <- Hr.
      apply elem_of_union. left. by apply elem_of_singleton.
    + intros r Hr. apply elem_of_cons in Hr as [->|Hr]; simpl.
      * repeat split; try done. lia.
      * destruct (Hall r Hr) as (Hv & ? & ? & ?). repeat split; try done.
        intros Hin. apply Hv. apply elem_of_union. by right.
Qed.

(** C8. [create_referral_chain] with [max_levels = 5] returns (it is a
    total function, whatever the stored sponsor pointers are, cycles
    included, and it never raises); it appends the edges it returns to the
    referral table; there are at most 5 of them, numbered 1, 2, ... in
    order, all for the new user, and no sponsor appears twice: meeting a
    sponsor again ends the chain. *)
Theorem referral_chain_bounded (db : DB) (sponsor : option Z) (new_user_id : Z) :
  ∃ refs db',
    create_referral_chain sponsor new_user_id 5 db = (Return refs, db')
    ∧ referrals db' = referrals db ++ refs
    ∧ (length refs ≤ 5)%nat
    ∧ (∀ i r, refs !! i = Some r → level r = (1 + Z.of_nat i)%Z)
    ∧ NoDup (referrer_id <$> refs)
    ∧ (∀ r, r ∈ refs → referred_id r = new_user_id).
Proof.
  unfold create_referral_chain. destruct (truthy sponsor).
  - destruct (create_referral_chain_loop_spec (users db) new_user_id 5 sponsor 1 ∅ [])
      as (ext & Heq & Hlen & Hlv & Hnd & Hall).
    rewrite app_nil_l in Heq. unfold bind, get_db, modify, ret. rewrite Heq.
    eexists _, _. split; [reflexivity|]. simpl. repeat split; try done; try lia.
    intros r Hr. by destruct (Hall r Hr) as (_ & _ & ? & _).
  - exists [], db. unfold ret. rewrite app_nil_r. repeat split; try done; simpl; try lia.
    + apply NoDup_nil_2.
    + by intros r Hr%elem_of_nil.
Qed.

(** A two-cycle of sponsors yields two edges and stops. *)
Example cycle_chain :
  (create_referral_chain (Some 1%Z) 9 5 db_cycle).1 = Return [
    {| referrer_id := 1; referred_id := 9; level := 1; ref_is_active := true;
       total_commission_earned := 0 |};
    {| referrer_id := 2; referred_id := 9; level := 2; ref_is_active := true;
       total_commission_earned := 0 |} ].
Proof. by vm_compute. Qed.

(** * Settlement *)

Lemma settle_not_matured id opt f db inv :
  investments db !! id = Some inv → status inv ≠ MATURED →
  settle_matured_investment id opt f db = (Failure "Investment is not matured yet", db).
Proof. intros Hinv Hs. unfold settle_matured_investment. rewrite Hinv. by rewrite decide_True. Qed.

Lemma alter_set_status id inv st (m : gmap Z UserInvestment) :
  m !! id = Some inv →
  alter (UserInvestment.set_status st) id m = <[id := UserInvestment.set_status st inv]> m.
Proof.
  intros Hinv. apply map_eq. intros j. destruct (decide (id = j)) as [<-|Hne].
  - by rewrite lookup_alter_eq, lookup_insert_eq, Hinv.
  - by rewrite lookup_alter_ne, lookup_insert_ne.
Qed.

Lemma truediv_100 (a : number) :
  py_truediv a (PyInt 100)
  = Return (match a with PyDecimal d => PyDecimal (d / #100) | _ => PyFloat (value a / #100) end).
Proof.
  unfold py_truediv. destruct a; cbn [coerce value]; (rewrite decide_False; [done|by_compute]).
Qed.

(** The fee and the net principal, as the settlement computes them. *)
Lemma settlement_net_principal (p : Qc) (f : number) (k : number → M response) db :
  (settlement_fee <~
     (if decide (0 < value f)
      then product <~ lift (py_mul (PyDecimal p) f) ;> lift (py_truediv product (PyInt 100))
      else ret (PyInt 0)) ;>
   net_principal <~ lift (py_sub (PyDecimal p) settlement_fee) ;>
   k net_principal) db
  = if decide (0 < value f) then
      match f with
      | PyFloat _ => (Raise "TypeError", db)
      | _ => k (PyDecimal (p - p * value f / #100)) db
      end
    else k (PyDecimal (p - 0)) db.
Proof.
  case_decide as Hpos.
  - unfold bind at 1. unfold bind at 1. unfold lift at 1.
    destruct f as [n|x|d]; cbn [py_mul coerce value]; [|done|].
    + unfold lift at 1. rewrite truediv_100. unfold bind, lift. by cbn [py_sub coerce value].
    + unfold lift at 1. rewrite truediv_100. unfold bind, lift. by cbn [py_sub coerce value].
  - unfold bind, ret, lift. by cbn [py_sub coerce value].
Qed.

Lemma settlement_net_principal_ok (p : Qc) (f : number) (k : number → M response) db :
  decimal_compatible f →
  (settlement_fee <~
     (if decide (0 < value f)
      then product <~ lift (py_mul (PyDecimal p) f) ;> lift (py_truediv product (PyInt 100))
      else ret (PyInt 0)) ;>
   net_principal <~ lift (py_sub (PyDecimal p) settlement_fee) ;>
   k net_principal) db
  = k (PyDecimal (if decide (0 < value f) then p - p * value f / #100 else p - 0)) db.
Proof.
  intros Hf. rewrite settlement_net_principal. case_decide; [|done]. by destruct f.
Qed.

Lemma net_principal_eq (b p f : Qc) :
  0 ≤ f →
  b + (if decide (0 < f) then p - p * f / #100 else p - 0) = b + p * (1 - f / #100).
Proof.
  intros Hf. case_decide as Hpos.
  - qc_to_q. field.
  - assert (f = 0) as -> by (apply Qcle_antisym; [by apply Qcnot_lt_le|done]).
    qc_to_q. field.
Qed.

Lemma settle_float_fee_fails db id inv opt (x : Qc) :
  investments db !! id = Some inv → status inv = MATURED → 0 < x →
  settle_matured_investment id opt (PyFloat x) db = (Failure "TypeError", db).
Proof.
  intros Hinv Hm Hx. unfold settle_matured_investment. rewrite Hinv.
  rewrite (decide_False (P := status inv ≠ MATURED)) by (intros Hn; by apply Hn).
  unfold settle_body, transactional. rewrite settlement_net_principal.
  by rewrite (decide_True (P := 0 < value (PyFloat x))).
Qed.

Lemma settle_available_fund db id inv f :
  investments db !! id = Some inv → is_Some (UserInvestment.package db inv) →
  decimal_compatible f → 0 ≤ value f → status inv = MATURED →
  ∃ m db', settle_matured_investment id "available_fund" f db = (Success m, db')
    ∧ wallet_balance db' (user_id inv, "available_fund")
      = wallet_balance db (user_id inv, "available_fund")
        + amount_invested inv * (1 - value f / #100)
    ∧ (∀ k, k ≠ (user_id inv, "available_fund") → wallets db' !! k = wallets db !! k)
    ∧ investments db' = <[id := UserInvestment.set_status CANCELLED inv]> (investments db).
Proof.
  intros Hinv [pkg Hpkg] Hdc Hf Hm. unfold settle_matured_investment. rewrite Hinv.
  rewrite (decide_False (P := status inv ≠ MATURED)) by (intros Hn; by apply Hn).
  unfold settle_body, transactional. rewrite settlement_net_principal_ok by done.
  rewrite (decide_True (P := "available_fund" = "available_fund")) by done. msimpl.
  unfold wallet_balance, UserInvestment.package in *.
  destruct (wallets db !! (user_id inv, "available_fund")) as [w|] eqn:Hw.
  - rewrite Hw. simpl. rewrite Hpkg. simpl.
    eexists _, _. split; [reflexivity|]. simpl.
    rewrite lookup_alter_eq, !Hw. simpl. split; [|split].
    + by apply net_principal_eq.
    + intros k Hk. by rewrite lookup_alter_ne.
    + by apply alter_set_status.
  - rewrite lookup_insert_eq. simpl. rewrite Hpkg. simpl.
    eexists _, _. split; [reflexivity|]. simpl.
    rewrite !Hw, lookup_alter_eq, lookup_insert_eq. simpl. split; [|split].
    + by apply net_principal_eq.
    + intros k Hk. by rewrite lookup_alter_ne, lookup_insert_ne.
    + by apply alter_set_status.
Qed.

Lemma settle_keep_invested db id inv f :
  investments db !! id = Some inv → is_Some (UserInvestment.package db inv) →
  decimal_compatible f → status inv = MATURED →
  ∃ m db', settle_matured_investment id "keep_invested" f db = (Success m, db')
    ∧ wallets db' = wallets db ∧ transactions db' = transactions db
    ∧ investments db' = <[id := UserInvestment.set_status CANCELLED inv]> (investments db).
Proof.
  intros Hinv [pkg Hpkg] Hdc Hm. unfold settle_matured_investment. rewrite Hinv.
  rewrite (decide_False (P := status inv ≠ MATURED)) by (intros Hn; by apply Hn).
  unfold settle_body, transactional. rewrite settlement_net_principal_ok by done.
  rewrite (decide_False (P := "keep_invested" = "available_fund")) by discriminate.
  rewrite (decide_True (P := "keep_invested" = "keep_invested")) by done.
  msimpl. unfold UserInvestment.package in *. rewrite Hpkg. simpl.
  eexists _, _. split; [reflexivity|]. simpl. repeat split; try done.
  by apply alter_set_status.
Qed.

Lemma settle_rest_success id inv opt (net : number) db m db1 :
  (if decide (opt = "available_fund")
   then
     first_or_add_wallet (user_id inv, "available_fund") ;>
     w <~ Wallet.row (user_id inv, "available_fund") ;>
     Wallet.set_balance (user_id inv, "available_fund") (balance w + value net) ;>
     db0 <~ get_db ;>
     match UserInvestment.package db0 inv with
     | Some _ =>
         modify (set_investments (alter (UserInvestment.set_status CANCELLED) id)) ;>
         ret (Success "Investment settled successfully")
     | None => raise "AttributeError"
     end
   else
     if decide (opt = "keep_invested")
     then
       db0 <~ get_db ;>
       match UserInvestment.package db0 inv with
       | Some _ =>
           modify (set_investments (alter (UserInvestment.set_status CANCELLED) id)) ;>
           ret (Success "Investment settled successfully")
       | None => raise "AttributeError"
       end
     else ret (Failure "Invalid settlement option")) db = (Return (Success m), db1) →
  investments db1 = alter (UserInvestment.set_status CANCELLED) id (investments db)
  ∧ returns db1 = returns db ∧ transactions db1 = transactions db.
Proof.
  destruct (decide (opt = "available_fund")) as [->|Hn1].
  - unfold bind at 1.
    pose proof (first_or_add_wallet_lookup (user_id inv, "available_fund") db) as [w Hw].
    destruct (first_or_add_wallet (user_id inv, "available_fund") db) as [r0 db0] eqn:H0.
    assert (Hfr0 : r0 = Return tt ∧ investments db0 = investments db ∧ packages db0 = packages db
                   ∧ returns db0 = returns db ∧ transactions db0 = transactions db).
    { revert H0. unfold first_or_add_wallet, modify. by intros [= <- <-]. }
    destruct Hfr0 as (-> & Hi0 & Hp0 & Hr0 & Ht0). simpl in Hw.
    unfold bind at 1. unfold Wallet.row at 1. rewrite Hw.
    unfold bind, Wallet.set_balance, modify, get_db, ret, raise, UserInvestment.package. simpl.
    destruct (packages db0 !! package_id inv); [|done].
    intros [= <- <-]. simpl. by rewrite Hi0, Hr0, Ht0.
  - destruct (decide (opt = "keep_invested")) as [->|Hn2]; [|done].
    unfold bind, modify, get_db, ret, raise, UserInvestment.package. simpl.
    destruct (packages db !! package_id inv); [|done].
    by intros [= <- <-].
Qed.

Lemma settle_body_success id inv opt f db m db1 :
  settle_body id inv opt f db = (Return (Success m), db1) →
  investments db1 = alter (UserInvestment.set_status CANCELLED) id (investments db)
  ∧ returns db1 = returns db ∧ transactions db1 = transactions db.
Proof.
  unfold settle_body. rewrite settlement_net_principal.
  destruct (decide (0 < value f)); [destruct f; try done|]; apply settle_rest_success.
Qed.

Lemma settle_success_inv id opt f db m db1 :
  settle_matured_investment id opt f db = (Success m, db1) →
  ∃ inv, investments db !! id = Some inv ∧ status inv = MATURED
    ∧ investments db1 = <[id := UserInvestment.set_status CANCELLED inv]> (investments db)
    ∧ returns db1 = returns db ∧ transactions db1 = transactions db.
Proof.
  unfold settle_matured_investment.
  destruct (investments db !! id) as [inv|] eqn:Hinv; [|done].
  case_decide as Hs; [done|].
  assert (Hm : status inv = MATURED) by (by destruct (status inv); try done; destruct Hs).
  unfold transactional.
  destruct (settle_body id inv opt f db) as [[[m'|m']|e] d] eqn:Hb; try done.
  intros [= <- <-]. apply settle_body_success in Hb as (Hi & Hr & Ht).
  exists inv. rewrite Hi. repeat split; try done. by apply alter_set_status.
Qed.

Lemma settle_failure id opt f db m db1 :
  settle_matured_investment id opt f db = (Failure m, db1) → db1 = db.
Proof.
  unfold settle_matured_investment.
  destruct (investments db !! id) as [inv|] eqn:Hinv; [|by intros [= _ <-]].
  case_decide as Hs; [by intros [= _ <-]|].
  destruct (transactional _ db) as [[[m'|m']|e] d] eqn:Ht; intros [= _ <-]; [done|].
  by apply transactional_raise in Ht.
Qed.

(** C7. A settlement with a fee does not go through when the fee percent
    is a [float], which is what the admin route makes of the form field
    ([float(data.get('settlement_fee', 0))]): for a MATURED position of 200
    and a fee of 2 percent, with either disposition, the fee computation
    multiplies the [Decimal] principal by the [float] and raises, the
    settlement is reported as failed and nothing changes: the wallet is
    not credited with 196 and the position stays MATURED.  The same call
    with the [int] 2 credits 196 and closes the position. *)
Lemma settlement_fee_raises_type_error :
  status (position_200 MATURED) = MATURED
  ∧ settle_matured_investment 1 "available_fund" (PyFloat #2) (db_position MATURED)
    = (Failure "TypeError", db_position MATURED)
  ∧ settle_matured_investment 1 "keep_invested" (PyFloat #2) (db_position MATURED)
    = (Failure "TypeError", db_position MATURED)
  ∧ (settle_matured_investment 1 "available_fund" (PyInt 2) (db_position MATURED)).1
    = Success "Investment settled successfully"
  ∧ wallet_balance
      (settle_matured_investment 1 "available_fund" (PyInt 2) (db_position MATURED)).2
      (1%Z, "available_fund")
    = wallet_balance (db_position MATURED) (1%Z, "available_fund") + #196.
Proof. by_compute. Qed.

(** * More of the ledger *)

Lemma subtract_balance_ok (db : DB) (self : Z * string) (amount : Qc) (w : Wallet) :
  wallets db !! self = Some w → 0 < amount → amount ≤ Wallet.available_balance w →
  ∃ db', Wallet.subtract_balance self amount db = (Return tt, db')
    ∧ wallets db' !! self
      = Some {| balance := balance w - amount; locked_balance := locked_balance w |}
    ∧ (∀ k, k ≠ self → wallets db' !! k = wallets db !! k)
    ∧ transactions db' = transactions db ++
        [ {| tx_user_id := self.1; transaction_type := "debit";
             tx_wallet_type := self.2; tx_amount := amount |} ].
Proof.
  intros Hw Hpos Hle. unfold Wallet.subtract_balance.
  rewrite decide_False by (by apply Qclt_not_le).
  msimpl. rewrite Hw. rewrite decide_False by (by apply Qcle_not_lt). simpl.
  eexists. split; [reflexivity|]. simpl. split; [|split; [|done]].
  - by rewrite lookup_alter_eq, Hw.
  - intros k Hk. by rewrite lookup_alter_ne.
Qed.

(** X1. A debit of an existing wallet: a non-positive amount is refused, an
    amount above the available balance (balance minus lock) is refused, and
    in both cases nothing changes; otherwise the balance drops by exactly
    the amount, the lock and every other wallet (the [total_income]
    aggregate included) stay as they were, and one "debit" row is logged. *)
Theorem debit_spec (db : DB) (self : Z * string) (amount : Qc) (w : Wallet) :
  wallets db !! self = Some w →
  (amount ≤ 0 → Wallet.subtract_balance self amount db = (Raise "Amount must be positive", db))
  ∧ (0 < amount → Wallet.available_balance w < amount →
     Wallet.subtract_balance self amount db = (Raise "Insufficient balance", db))
  ∧ (0 < amount → amount ≤ Wallet.available_balance w →
     ∃ db', Wallet.subtract_balance self amount db = (Return tt, db')
       ∧ wallets db' !! self
         = Some {| balance := balance w - amount; locked_balance := locked_balance w |}
       ∧ (∀ k, k ≠ self → wallets db' !! k = wallets db !! k)
       ∧ transactions db' = transactions db ++
           [ {| tx_user_id := self.1; transaction_type := "debit";
                tx_wallet_type := self.2; tx_amount := amount |} ]).
Proof.
  intros Hw. split; [|split].
  - intros Ha. unfold Wallet.subtract_balance. by rewrite decide_True.
  - intros Hpos Hlt. unfold Wallet.subtract_balance.
    rewrite decide_False by (by apply Qclt_not_le).
    msimpl. rewrite Hw. by rewrite decide_True.
  - intros Hpos Hle. by apply subtract_balance_ok.
Qed.

Lemma debit_spec_example :
  wallets db_locked !! (1%Z, "available_fund") = Some {| balance := #100; locked_balance := #50 |}
  ∧ ∃ db', Wallet.subtract_balance (1%Z, "available_fund") #30 db_locked = (Return tt, db')
      ∧ wallets db' !! (1%Z, "available_fund") = Some {| balance := #70; locked_balance := #50 |}.
Proof.
  split; [by_compute|].
  destruct (debit_spec db_locked (1%Z, "available_fund") #30
              {| balance := #100; locked_balance := #50 |} ltac:(by_compute)) as (_ & _ & Hok).
  destruct (Hok ltac:(by_compute) ltac:(by_compute)) as (db' & Hrun & Hw & _).
  exists db'. split; [exact Hrun|]. rewrite Hw. by_compute.
Defined.

Lemma lock_then_unlock (db db1 : DB) (self : Z * string) (amount : Qc) :
  ledger_ok db →
  Wallet.lock_balance self amount db = (Return tt, db1) →
  transactions db1 = transactions db
  ∧ (balance <$> wallets db1 !! self) = (balance <$> wallets db !! self)
  ∧ Wallet.unlock_balance self amount db1 = (Return tt, db).
Proof.
  intros Hok. unfold Wallet.lock_balance. case_decide as Ha; [done|].
  msimpl. destruct (wallets db !! self) as [w|] eqn:Hw; [|done]. simpl.
  destruct (Hok _ _ Hw) as (_ & Hl & _).
  case_decide as Hav; [done|]. simpl. intros [= <-]. simpl.
  split; [done|]. rewrite lookup_alter_eq, Hw. simpl. split; [done|].
  unfold Wallet.unlock_balance. rewrite decide_False by done. msimpl.
  rewrite lookup_alter_eq, Hw. simpl.
  rewrite decide_False.
  2:{ apply Qcle_not_lt. apply Qcnot_le_lt in Ha. qc_lra. }
  simpl. apply (f_equal (pair (Return tt))).
  match goal with |- set_wallets ?f (set_wallets ?g db) = db =>
    assert (Hm : f (g (wallets db)) = wallets db) end.
  { apply map_eq. intros k. destruct (decide (self = k)) as [<-|Hne].
    - rewrite lookup_alter_eq, lookup_alter_eq, Hw. simpl. destruct w as [b l]. simpl in *.
      apply (f_equal Some). apply (f_equal (Build_Wallet b)). qc_to_q. ring.
    - by rewrite !lookup_alter_ne. }
  destruct db as [ws us rs ps ivs rets txs incs]. unfold set_wallets. simpl in *.
  by rewrite Hm.
Qed.

(** X2. On a store that satisfies the ledger invariant, a lock that succeeds
    writes no audit row, leaves the balance and the other wallets alone,
    and unlocking the same amount gives back the store as it was. *)
Theorem lock_unlock_round_trip (db db1 : DB) (self : Z * string) (amount : Qc) :
  ledger_ok db →
  Wallet.lock_balance self amount db = (Return tt, db1) →
  transactions db1 = transactions db
  ∧ (balance <$> wallets db1 !! self) = (balance <$> wallets db !! self)
  ∧ (∀ k, k ≠ self → wallets db1 !! k = wallets db !! k)
  ∧ Wallet.unlock_balance self amount db1 = (Return tt, db).
Proof.
  intros Hok Hlock.
  destruct (lock_then_unlock db db1 self amount Hok Hlock) as (Htx & Hbal & Hunlock).
  split; [done|]. split; [done|]. split; [|done].
  intros k Hk. revert Hlock. unfold Wallet.lock_balance. case_decide; [done|]. msimpl.
  destruct (wallets db !! self); [|done]. simpl. case_decide; [done|]. simpl.
  intros [= <-]. simpl. by rewrite lookup_alter_ne.
Qed.

Lemma lock_unlock_round_trip_example :
  ledger_ok db_locked
  ∧ Wallet.lock_balance (1%Z, "available_fund") #20 db_locked
    = (Return tt, (Wallet.lock_balance (1%Z, "available_fund") #20 db_locked).2)
  ∧ Wallet.unlock_balance (1%Z, "available_fund") #20
      (Wallet.lock_balance (1%Z, "available_fund") #20 db_locked).2
    = (Return tt, db_locked).
Proof.
  assert (Hok : ledger_ok db_locked) by ledger_by_compute.
  assert (Hrun : Wallet.lock_balance (1%Z, "available_fund") #20 db_locked
                 = (Return tt, (Wallet.lock_balance (1%Z, "available_fund") #20 db_locked).2))
    by by_compute.
  split; [exact Hok|]. split; [exact Hrun|].
  apply (lock_unlock_round_trip db_locked _ (1%Z, "available_fund") #20 Hok Hrun).
Defined.

(** X3. The five wallet methods keep the ledger invariant
    [0 <= locked_balance <= balance] of every wallet, whether they succeed
    or raise. *)
Theorem wallet_methods_keep_ledger_invariant (db : DB) (self target : Z * string) (amount : Qc) :
  ledger_ok db →
  ledger_ok (Wallet.add_balance self amount db).2
  ∧ ledger_ok (Wallet.subtract_balance self amount db).2
  ∧ ledger_ok (Wallet.lock_balance self amount db).2
  ∧ ledger_ok (Wallet.unlock_balance self amount db).2
  ∧ ledger_ok (Wallet.transfer_to self target amount db).2.
Proof.
  intros Hok. split; [|split; [|split; [|split]]].
  - by apply add_balance_ledger_ok.
  - by apply subtract_balance_ledger_ok.
  - by apply lock_balance_ledger_ok.
  - by apply unlock_balance_ledger_ok.
  - by apply transfer_to_ledger_ok.
Qed.

Lemma wallet_methods_keep_ledger_invariant_example :
  ledger_ok db_locked
  ∧ ledger_ok (Wallet.add_balance (1%Z, "available_fund") #5 db_locked).2
  ∧ ledger_ok (Wallet.subtract_balance (1%Z, "available_fund") #5 db_locked).2.
Proof.
  assert (Hok : ledger_ok db_locked) by ledger_by_compute.
  split; [exact Hok|].
  destruct (wallet_methods_keep_ledger_invariant db_locked (1%Z, "available_fund")
              (2%Z, "available_fund") #5 Hok) as (Hadd & Hsub & _).
  split; [exact Hadd|exact Hsub].
Defined.

(** X4. A transfer between two distinct existing wallets, from a wallet that
    is not the aggregate, of a positive amount within the available
    balance: the source loses the amount, the target gains it, only the
    target owner's aggregate may change besides, and three audit rows are
    logged in order: the debit, the credit and the transfer. *)
Theorem transfer_spec (db : DB) (self target : Z * string) (amount : Qc) (w t : Wallet) :
  wallets db !! self = Some w → wallets db !! target = Some t →
  self ≠ target → self.2 ≠ "total_income" →
  0 < amount → amount ≤ Wallet.available_balance w →
  ∃ db', Wallet.transfer_to self target amount db = (Return tt, db')
    ∧ wallets db' !! self
      = Some {| balance := balance w - amount; locked_balance := locked_balance w |}
    ∧ wallets db' !! target
      = Some {| balance := balance t + amount; locked_balance := locked_balance t |}
    ∧ (∀ k, k ≠ self → k ≠ target → k ≠ (target.1, "total_income") →
            wallets db' !! k = wallets db !! k)
    ∧ transactions db' = transactions db ++
        [ {| tx_user_id := self.1; transaction_type := "debit";
             tx_wallet_type := self.2; tx_amount := amount |};
          {| tx_user_id := target.1; transaction_type := "credit";
             tx_wallet_type := target.2; tx_amount := amount |};
          {| tx_user_id := self.1; transaction_type := "transfer";
             tx_wallet_type := self.2 +:+ " -> " +:+ target.2; tx_amount := amount |} ].
Proof.
  intros Hw Ht Hne Hti Hpos Hle. unfold Wallet.transfer_to.
  rewrite decide_False by (by apply Qclt_not_le).
  unfold bind at 1. unfold Wallet.row at 1. rewrite Hw.
  rewrite decide_False by (by apply Qcle_not_lt).
  destruct (subtract_balance_ok db self amount w Hw Hpos Hle)
    as (db1 & Hrun1 & Hself1 & Hfr1 & Htx1).
  unfold bind at 1. rewrite Hrun1.
  assert (Ht1 : wallets db1 !! target = Some t) by (by rewrite Hfr1).
  destruct (add_balance_ok target amount t db1 Hpos Ht1)
    as (db2 & Hrun2 & Htgt2 & Htx2 & _ & _ & Hfr2 & _).
  unfold bind at 1. rewrite Hrun2. unfold modify. simpl.
  eexists. split; [reflexivity|]. simpl. split; [|split; [|split]].
  - rewrite Hfr2; [done|done|]. destruct self as [u wt]. simpl in *. congruence.
  - done.
  - intros k Hk1 Hk2 Hk3. rewrite Hfr2 by done. by apply Hfr1.
  - rewrite Htx2, Htx1, <- !app_assoc. done.
Qed.

Lemma transfer_spec_example :
  wallets db_transfer !! (1%Z, "available_fund")
    = Some {| balance := #100; locked_balance := #50 |}
  ∧ wallets db_transfer !! (2%Z, "available_fund") = Some {| balance := 0; locked_balance := 0 |}
  ∧ 0 < #40 ∧ #40 ≤ #100 - #50
  ∧ ∃ db', Wallet.transfer_to (1%Z, "available_fund") (2%Z, "available_fund") #40 db_transfer
           = (Return tt, db')
      ∧ wallets db' !! (1%Z, "available_fund") = Some {| balance := #60; locked_balance := #50 |}
      ∧ wallets db' !! (2%Z, "available_fund") = Some {| balance := #40; locked_balance := 0 |}.
Proof.
  split; [by_compute|]. split; [by_compute|]. split; [by_compute|]. split; [by_compute|].
  destruct (transfer_spec db_transfer (1%Z, "available_fund") (2%Z, "available_fund") #40
              {| balance := #100; locked_balance := #50 |} {| balance := 0; locked_balance := 0 |}
              ltac:(by_compute) ltac:(by_compute) ltac:(by_compute) ltac:(by_compute)
              ltac:(by_compute) ltac:(by_compute)) as (db' & Hrun & Hs & Ht & _).
  exists db'. split; [exact Hrun|]. rewrite Hs, Ht. split; by_compute.
Defined.

Lemma initialize_fold_lookup (uid : Z) (types : list string) (m : gmap (Z * string) Wallet)
    (k : Z * string) :
  foldl (λ m wallet_type,
           match m !! (uid, wallet_type) with
           | Some _ => m
           | None => <[(uid, wallet_type) := zero_wallet]> m
           end) m types !! k
  = match m !! k with
    | Some w => Some w
    | None => if decide (k.1 = uid ∧ k.2 ∈ types) then Some zero_wallet else None
    end.
Proof.
  revert m. induction types as [|wt types IH]; intros m; simpl.
  - destruct (m !! k); [done|]. rewrite decide_False; [done|].
    intros [_ Hin]. by apply elem_of_nil in Hin.
  - rewrite IH. destruct (m !! (uid, wt)) as [w0|] eqn:Hwt.
    + destruct (m !! k) as [w|] eqn:Hk; [done|].
      destruct (decide (k.1 = uid ∧ k.2 ∈ types)) as [[H1 H2]|Hn].
      * rewrite decide_True; [done|]. split; [done|]. by right.
      * rewrite decide_False; [done|]. intros [H1 H2]. apply elem_of_cons in H2 as [H2|H2].
        -- destruct k as [u t]. simpl in *. subst. congruence.
        -- by apply Hn.
    + destruct (decide ((uid, wt) = k)) as [<-|Hne].
      * rewrite lookup_insert_eq, Hwt. rewrite decide_True; [done|]. split; [done|]. by left.
      * rewrite lookup_insert_ne by done. destruct (m !! k) as [w|] eqn:Hk; [done|].
        destruct (decide (k.1 = uid ∧ k.2 ∈ types)) as [[H1 H2]|Hn].
        -- rewrite decide_True; [done|]. split; [done|]. by right.
        -- rewrite decide_False; [done|]. intros [H1 H2]. apply elem_of_cons in H2 as [H2|H2].
           ++ destruct k as [u t]. simpl in *. subst. done.
           ++ by apply Hn.
Qed.

(** X5. Wallet initialisation never fails; afterwards all five wallet types
    of the user exist, wallets that existed are untouched, the new ones are
    empty, nothing is logged, and a second initialisation changes nothing. *)
Theorem initialize_user_wallets_spec (db : DB) (uid : Z) :
  ∃ db', Wallet.initialize_user_wallets uid db = (Return tt, db')
    ∧ (∀ wallet_type, wallet_type ∈ Wallet.get_wallet_types →
         is_Some (wallets db' !! (uid, wallet_type)))
    ∧ (∀ k w, wallets db !! k = Some w → wallets db' !! k = Some w)
    ∧ (∀ k, wallets db !! k = None →
         wallets db' !! k = if decide (k.1 = uid ∧ k.2 ∈ Wallet.get_wallet_types)
                            then Some zero_wallet else None)
    ∧ transactions db' = transactions db
    ∧ Wallet.initialize_user_wallets uid db' = (Return tt, db').
Proof.
  unfold Wallet.initialize_user_wallets, modify. eexists. split; [reflexivity|].
  unfold set_wallets. cbn [wallets transactions]. fold zero_wallet.
  split; [|split; [|split; [|split]]].
  - intros wt Hwt. rewrite initialize_fold_lookup.
    destruct (wallets db !! (uid, wt)); [eauto|]. rewrite decide_True by done. eauto.
  - intros k w Hk. by rewrite initialize_fold_lookup, Hk.
  - intros k Hk. by rewrite initialize_fold_lookup, Hk.
  - done.
  - apply (f_equal (pair (Return tt))). destruct db as [ws us rs ps ivs rets txs incs].
    cbn [wallets users referrals packages investments returns transactions incomes].
    f_equal. apply map_eq. intros k. rewrite !initialize_fold_lookup.
    destruct (ws !! k); [done|]. by case_decide.
Qed.

(** * Deposits and withdrawals *)

(** X6. Processing a deposit of a positive amount always succeeds: the
    target wallet, created when missing, gains exactly the amount; besides
    it only the owner's aggregate may change, and no referral edge, income
    row or user is touched (a deposit pays no commission). *)
Theorem deposit_spec (db : DB) (uid : Z) (wallet_type : string) (amount : Qc) :
  0 < amount →
  ∃ db', Transaction._process_deposit uid wallet_type amount db = (Return tt, db')
    ∧ (∃ w, wallets db' !! (uid, wallet_type) = Some w
            ∧ balance w = wallet_balance db (uid, wallet_type) + amount)
    ∧ (∀ k, k ≠ (uid, wallet_type) → k ≠ (uid, "total_income") →
            wallets db' !! k = wallets db !! k)
    ∧ referrals db' = referrals db ∧ incomes db' = incomes db ∧ users db' = users db.
Proof.
  intros Hpos. unfold Transaction._process_deposit. unfold bind.
  pose proof (first_or_add_wallet_lookup (uid, wallet_type) db) as [w Hw].
  destruct (first_or_add_wallet (uid, wallet_type) db) as [r0 db0] eqn:H0.
  assert (Hfr0 : r0 = Return tt ∧ users db0 = users db ∧ referrals db0 = referrals db ∧
            incomes db0 = incomes db ∧
            balance w = wallet_balance db (uid, wallet_type) ∧
            ∀ k, k ≠ (uid, wallet_type) → wallets db0 !! k = wallets db !! k).
  { revert H0 Hw. unfold first_or_add_wallet, modify, wallet_balance.
    intros [= <- <-]. simpl.
    destruct (wallets db !! _) as [w0|] eqn:Hw0.
    - rewrite Hw0. intros [= <-]. done.
    - rewrite lookup_insert_eq. intros [= <-]. repeat split; try done.
      intros k Hk. by rewrite lookup_insert_ne. }
  destruct Hfr0 as (-> & Hu0 & Hr0 & Hi0 & Hbal & Hfr). simpl in Hw.
  destruct (add_balance_ok _ _ _ _ Hpos Hw)
    as (db2 & -> & Hw2 & _ & _ & _ & Hfr2 & Hu2 & Hr2 & _ & _ & _ & Hi2).
  exists db2. split; [done|]. split; [|split].
  - eexists. split; [exact Hw2|]. simpl. by rewrite Hbal.
  - intros k Hk1 Hk2. rewrite Hfr2 by done. by apply Hfr.
  - by rewrite Hr2, Hr0, Hi2, Hi0, Hu2, Hu0.
Qed.

Lemma deposit_spec_example :
  0 < #25
  ∧ ∃ db', Transaction._process_deposit 1 "available_fund" #25 db_locked = (Return tt, db')
      ∧ ∃ w, wallets db' !! (1%Z, "available_fund") = Some w ∧ balance w = #125.
Proof.
  split; [by_compute|].
  destruct (deposit_spec db_locked 1 "available_fund" #25 ltac:(by_compute))
    as (db' & Hrun & (w & Hw & Hb) & _).
  exists db'. split; [exact Hrun|]. exists w. split; [exact Hw|]. rewrite Hb. by_compute.
Defined.

(** X7. A withdrawal whose request locked [amount + fee]: rejecting it
    (unlocking) restores the store as it was before the request; approving
    it checks the available balance again on top of the lock, so it is
    refused unless twice the total was available before the request, and
    when it succeeds the balance drops by the total while the lock taken by
    the request is still held. *)
Theorem withdrawal_lifecycle (db db1 : DB) (uid : Z) (wallet_type : string)
    (amount fee : Qc) (w : Wallet) :
  ledger_ok db →
  wallets db !! (uid, wallet_type) = Some w →
  Wallet.lock_balance (uid, wallet_type) (amount + fee) db = (Return tt, db1) →
  Transaction._unlock_withdrawal_funds uid wallet_type amount fee db1 = (Return tt, db)
  ∧ (Wallet.available_balance w < (amount + fee) + (amount + fee) →
     Transaction._process_withdrawal uid wallet_type amount fee db1
     = (Raise "Insufficient balance for withdrawal", db1))
  ∧ ((amount + fee) + (amount + fee) ≤ Wallet.available_balance w →
     ∃ db2, Transaction._process_withdrawal uid wallet_type amount fee db1 = (Return tt, db2)
       ∧ wallets db2 !! (uid, wallet_type)
         = Some {| balance := balance w - (amount + fee);
                   locked_balance := locked_balance w + (amount + fee) |}).
Proof.
  intros Hok Hw Hlock.
  destruct (lock_then_unlock db db1 _ _ Hok Hlock) as (_ & _ & Hunlock).
  assert (Hw1 : wallets db1 !! (uid, wallet_type)
                = Some {| balance := balance w; locked_balance := locked_balance w + (amount + fee) |}).
  { revert Hlock. unfold Wallet.lock_balance. case_decide; [done|]. msimpl. rewrite Hw.
    case_decide; [done|]. simpl. intros [= <-]. simpl. by rewrite lookup_alter_eq, Hw. }
  assert (Hpos : 0 < amount + fee).
  { revert Hlock. unfold Wallet.lock_balance. case_decide as Ha; [done|]. intros _.
    by apply Qcnot_le_lt. }
  split; [|split].
  - unfold Transaction._unlock_withdrawal_funds. unfold bind, get_db. by rewrite Hw1.
  - intros Hlt. unfold Transaction._process_withdrawal. unfold bind, get_db. rewrite Hw1.
    rewrite decide_True; [done|]. unfold Wallet.available_balance in *. simpl. qc_lra.
  - intros Hle. unfold Transaction._process_withdrawal. unfold bind, get_db. rewrite Hw1.
    rewrite decide_False.
    2:{ apply Qcle_not_lt. unfold Wallet.available_balance in *. simpl. qc_lra. }
    destruct (subtract_balance_ok db1 (uid, wallet_type) (amount + fee) _ Hw1)
      as (db2 & Hrun & Hself & _); [done| |eauto].
    unfold Wallet.available_balance in *. simpl. qc_lra.
Qed.

Lemma withdrawal_lifecycle_example :
  ledger_ok db_locked
  ∧ Wallet.lock_balance (1%Z, "available_fund") (#10 + #2) db_locked
    = (Return tt, (Wallet.lock_balance (1%Z, "available_fund") (#10 + #2) db_locked).2)
  ∧ Transaction._unlock_withdrawal_funds 1 "available_fund" #10 #2
      (Wallet.lock_balance (1%Z, "available_fund") (#10 + #2) db_locked).2
    = (Return tt, db_locked)
  ∧ ∃ db2, Transaction._process_withdrawal 1 "available_fund" #10 #2
             (Wallet.lock_balance (1%Z, "available_fund") (#10 + #2) db_locked).2
           = (Return tt, db2)
      ∧ wallets db2 !! (1%Z, "available_fund")
        = Some {| balance := #88; locked_balance := #62 |}.
Proof.
  assert (Hok : ledger_ok db_locked) by ledger_by_compute.
  assert (Hrun : Wallet.lock_balance (1%Z, "available_fund") (#10 + #2) db_locked
                 = (Return tt, (Wallet.lock_balance (1%Z, "available_fund") (#10 + #2) db_locked).2))
    by by_compute.
  split; [exact Hok|]. split; [exact Hrun|].
  destruct (withdrawal_lifecycle db_locked _ 1 "available_fund" #10 #2
              {| balance := #100; locked_balance := #50 |} Hok ltac:(by_compute) Hrun)
    as (Hrej & _ & Happ).
  split; [exact Hrej|].
  destruct (Happ ltac:(by_compute)) as (db2 & Hrun2 & Hw2).
  exists db2. split; [exact Hrun2|]. rewrite Hw2. by_compute.
Defined.

(** * Position life cycle *)

Lemma sweep_row_model D inv : sweep_row D inv = UserInvestment.update_status_based_on_dates D inv.
Proof.
  unfold sweep_row, UserInvestment.update_status_based_on_dates, date_le.
  case_decide as Hs.
  - rewrite bool_decide_eq_true_2 by done. simpl.
    destruct (maturity_date inv) as [m|]; [|done].
    case_decide; [by rewrite bool_decide_eq_true_2|by rewrite bool_decide_eq_false_2].
  - by rewrite bool_decide_eq_false_2.
Qed.

(** X8. The maturity sweep of the service applies the position's own
    [update_status_based_on_dates] to every row and touches neither wallets
    nor the return log: a row is either unchanged, or was ACTIVE with a
    maturity date not after the run date and becomes MATURED. *)
Theorem maturity_sweep_spec (D : Z) (db : DB) :
  investments (_update_investment_statuses D db)
    = UserInvestment.update_status_based_on_dates D <$> investments db
  ∧ wallets (_update_investment_statuses D db) = wallets db
  ∧ returns (_update_investment_statuses D db) = returns db
  ∧ (∀ id inv, investments db !! id = Some inv →
       investments (_update_investment_statuses D db) !! id = Some inv
       ∨ (status inv = ACTIVE ∧ (∃ m, maturity_date inv = Some m ∧ (m ≤ D)%Z)
          ∧ investments (_update_investment_statuses D db) !! id
            = Some (UserInvestment.set_status MATURED inv))).
Proof.
  split; [|split; [done|split; [done|]]].
  - unfold _update_investment_statuses. simpl. apply map_fmap_ext.
    intros k inv _. apply sweep_row_model.
  - intros id inv Hinv. unfold _update_investment_statuses. simpl.
    rewrite lookup_fmap, Hinv. simpl.
    destruct (bool_decide (status inv = ACTIVE) && date_le (maturity_date inv) D) eqn:Hc;
      [right|by left].
    apply andb_true_iff in Hc as [Hs Hm]. apply bool_decide_eq_true in Hs.
    unfold date_le in Hm. destruct (maturity_date inv) as [m|]; [|done].
    apply bool_decide_eq_true in Hm. eauto.
Qed.

(** X9. A position that is not ACTIVE is left exactly as it is by a daily
    run, and the run logs no return for it. *)
Theorem daily_run_ignores_inactive (D : Z) (db : DB) (id : Z) (inv : UserInvestment) :
  investments db !! id = Some inv → status inv ≠ ACTIVE →
  investments (calculate_daily_investment_returns D db).2 !! id = Some inv
  ∧ filter (λ r, investment_id r = id) (returns (calculate_daily_investment_returns D db).2)
    = filter (λ r, investment_id r = id) (returns db).
Proof.
  intros Hinv Hs. split.
  - rewrite daily_run_row, Hinv. simpl. f_equal.
    unfold sweep_row. by rewrite bool_decide_eq_false_2.
  - by rewrite daily_run_returns.
Qed.

Lemma daily_run_ignores_inactive_example :
  investments (db_position CANCELLED) !! 1%Z = Some (position_200 CANCELLED)
  ∧ status (position_200 CANCELLED) ≠ ACTIVE
  ∧ investments (calculate_daily_investment_returns 20 (db_position CANCELLED)).2 !! 1%Z
    = Some (position_200 CANCELLED).
Proof.
  split; [by_compute|]. split; [by_compute|].
  apply (daily_run_ignores_inactive 20 (db_position CANCELLED) 1 (position_200 CANCELLED)
           ltac:(by_compute) ltac:(by_compute)).
Defined.

(** X10. Forcing maturity of an existing position: an ACTIVE position
    becomes MATURED whatever its dates, and no wallet, return or audit row
    changes; a position in any other state is refused. *)
Theorem force_mature_spec (db : DB) (id : Z) (inv : UserInvestment) :
  investments db !! id = Some inv →
  (status inv = ACTIVE →
     ∃ db', force_mature_investment id db = (Success "Investment force matured successfully", db')
       ∧ investments db' = <[id := UserInvestment.set_status MATURED inv]> (investments db)
       ∧ wallets db' = wallets db ∧ returns db' = returns db
       ∧ transactions db' = transactions db)
  ∧ (status inv ≠ ACTIVE →
     force_mature_investment id db = (Failure "Investment is not active", db)).
Proof.
  intros Hinv. unfold force_mature_investment. rewrite Hinv. split.
  - intros Hs. rewrite decide_False by (intros Hn; by apply Hn).
    eexists. split; [reflexivity|]. simpl. split; [|done]. by apply alter_set_status.
  - intros Hs. by rewrite decide_True.
Qed.

Lemma force_mature_spec_example :
  investments (db_position ACTIVE) !! 1%Z = Some (position_200 ACTIVE)
  ∧ ∃ db', force_mature_investment 1 (db_position ACTIVE)
           = (Success "Investment force matured successfully", db')
      ∧ investments db' !! 1%Z = Some (position_200 MATURED).
Proof.
  split; [by_compute|].
  destruct (force_mature_spec (db_position ACTIVE) 1 (position_200 ACTIVE) ltac:(by_compute))
    as [Hact _].
  destruct (Hact ltac:(by_compute)) as (db' & Hrun & Hinv & _).
  exists db'. split; [exact Hrun|]. rewrite Hinv. by_compute.
Defined.

(** X11. An ACTIVE position cannot be settled, but forcing it to maturity
    makes the settlement go through when the fee percent [f] is a number
    the [Decimal] principal can be multiplied by (not a [float]): paid
    into the spending wallet, the owner receives the principal less the
    fee, the position ends CANCELLED and its paid returns are not
    changed. *)
Theorem force_mature_then_settle (db : DB) (id : Z) (inv : UserInvestment) (f : number) :
  investments db !! id = Some inv → is_Some (UserInvestment.package db inv) →
  decimal_compatible f → 0 ≤ value f → status inv = ACTIVE →
  settle_matured_investment id "available_fund" f db
    = (Failure "Investment is not matured yet", db)
  ∧ ∃ db1 m db2,
      force_mature_investment id db = (Success "Investment force matured successfully", db1)
      ∧ settle_matured_investment id "available_fund" f db1 = (Success m, db2)
      ∧ wallet_balance db2 (user_id inv, "available_fund")
        = wallet_balance db (user_id inv, "available_fund")
          + amount_invested inv * (1 - value f / #100)
      ∧ status <$> investments db2 !! id = Some CANCELLED
      ∧ total_returns_paid <$> investments db2 !! id = Some (total_returns_paid inv).
Proof.
  intros Hinv Hpkg Hdc Hf Hs. split.
  { apply (settle_not_matured id _ f db inv Hinv). by rewrite Hs. }
  unfold force_mature_investment. rewrite Hinv.
  rewrite decide_False by (intros Hn; by apply Hn).
  set (db1 := set_investments (alter (UserInvestment.set_status MATURED) id) db).
  assert (Hinv1 : investments db1 !! id = Some (UserInvestment.set_status MATURED inv)).
  { unfold db1. simpl. by rewrite lookup_alter_eq, Hinv. }
  destruct (settle_available_fund db1 id _ f Hinv1) as (m & db2 & Hrun & Hbal & _ & Hi2);
    [done|done|done|done|].
  exists db1, m, db2. split; [done|]. split; [done|]. split; [done|].
  rewrite Hi2, lookup_insert_eq. done.
Qed.

Lemma force_mature_then_settle_example :
  investments (db_position ACTIVE) !! 1%Z = Some (position_200 ACTIVE)
  ∧ is_Some (UserInvestment.package (db_position ACTIVE) (position_200 ACTIVE))
  ∧ decimal_compatible (PyInt 10) ∧ 0 ≤ value (PyInt 10)
  ∧ status (position_200 ACTIVE) = ACTIVE
  ∧ settle_matured_investment 1 "available_fund" (PyInt 10) (db_position ACTIVE)
    = (Failure "Investment is not matured yet", db_position ACTIVE)
  ∧ ∃ db1 m db2,
      force_mature_investment 1 (db_position ACTIVE)
      = (Success "Investment force matured successfully", db1)
      ∧ settle_matured_investment 1 "available_fund" (PyInt 10) db1 = (Success m, db2)
      ∧ wallet_balance db2 (1%Z, "available_fund") = #300 + #180.
Proof.
  split; [by_compute|]. split; [by_compute|]. split; [by_compute|]. split; [by_compute|].
  split; [by_compute|].
  destruct (force_mature_then_settle (db_position ACTIVE) 1 (position_200 ACTIVE) (PyInt 10)
              ltac:(by_compute) ltac:(by_compute) ltac:(by_compute) ltac:(by_compute)
              ltac:(by_compute)) as (Hrefused & db1 & m & db2 & Hforce & Hsettle & Hbal & _).
  split; [exact Hrefused|].
  exists db1, m, db2. split; [exact Hforce|]. split; [exact Hsettle|].
  cbn [user_id position_200] in Hbal. rewrite Hbal. by_compute.
Defined.

(** X12. A settlement that succeeded is final: every further settlement of
    the position is refused without a change, forcing maturity is refused,
    and a daily run leaves the position as it is. *)
Theorem settlement_is_final (db db1 : DB) (id : Z) (opt : string) (f : number) (m : string) :
  settle_matured_investment id opt f db = (Success m, db1) →
  (∀ opt' f', settle_matured_investment id opt' f' db1
              = (Failure "Investment is not matured yet", db1))
  ∧ force_mature_investment id db1 = (Failure "Investment is not active", db1)
  ∧ (∀ D, investments (calculate_daily_investment_returns D db1).2 !! id
          = investments db1 !! id).
Proof.
  intros Hrun. apply settle_success_inv in Hrun as (inv & Hinv & Hs & Hi1 & _).
  assert (Hinv1 : investments db1 !! id = Some (UserInvestment.set_status CANCELLED inv)).
  { by rewrite Hi1, lookup_insert_eq. }
  split; [|split].
  - intros opt' f'. by apply (settle_not_matured id opt' f' db1 _ Hinv1).
  - unfold force_mature_investment. rewrite Hinv1. by rewrite decide_True.
  - intros D. rewrite Hinv1. rewrite daily_run_row, Hinv1. simpl. by f_equal.
Qed.

Lemma settlement_is_final_example :
  settle_matured_investment 1 "available_fund" (PyInt 10) (db_position MATURED)
  = (Success "Investment settled successfully",
     (settle_matured_investment 1 "available_fund" (PyInt 10) (db_position MATURED)).2)
  ∧ force_mature_investment 1
      (settle_matured_investment 1 "available_fund" (PyInt 10) (db_position MATURED)).2
    = (Failure "Investment is not active",
       (settle_matured_investment 1 "available_fund" (PyInt 10) (db_position MATURED)).2).
Proof.
  assert (Hrun : settle_matured_investment 1 "available_fund" (PyInt 10) (db_position MATURED)
                 = (Success "Investment settled successfully",
                    (settle_matured_investment 1 "available_fund" (PyInt 10)
                       (db_position MATURED)).2))
    by by_compute.
  split; [exact Hrun|].
  apply (settlement_is_final (db_position MATURED) _ 1 "available_fund" (PyInt 10) _ Hrun).
Defined.

(** X13. A settlement, a forced maturity or a manual distribution that
    reports a failure leaves the store exactly as it was. *)
Theorem failed_admin_actions_change_nothing (db db' : DB) (id : Z) (m : string) :
  (∀ opt f, settle_matured_investment id opt f db = (Failure m, db') → db' = db)
  ∧ (force_mature_investment id db = (Failure m, db') → db' = db)
  ∧ (∀ amount D, manual_distribute_returns id amount D db = (Failure m, db') → db' = db).
Proof.
  split; [|split].
  - intros opt f. apply settle_failure.
  - unfold force_mature_investment. destruct (investments db !! id); [|by intros [= _ <-]].
    case_decide; [by intros [= _ <-]|done].
  - intros amount D. apply manual_distribute_failure.
Qed.


(** X14. A manual distribution never succeeds and never changes the store:
    it reports "Investment not found" for a missing position and "Amount
    must be greater than 0" for a non-positive amount, and otherwise
    fails on the computation of the remaining returns, with the
    [TypeError] of multiplying the [Decimal] principal by the [float]
    percentage (or the [AttributeError] of a missing package). *)
Theorem manual_distribution_never_succeeds (db : DB) (id : Z) (amount : Qc) (D : Z) :
  manual_distribute_returns id amount D db
  = (Failure (match investments db !! id with
              | None => "Investment not found"
              | Some inv =>
                  if decide (amount ≤ 0) then "Amount must be greater than 0"
                  else match UserInvestment.package db inv with
                       | Some _ => "TypeError"
                       | None => "AttributeError"
                       end
              end), db)
  ∧ (∀ m, (manual_distribute_returns id amount D db).1 ≠ Success m)
  ∧ (∀ inv,
       UserInvestment.returns_remaining inv db
       = (Raise (match UserInvestment.package db inv with
                 | Some _ => "TypeError"
                 | None => "AttributeError"
                 end), db)).
Proof.
  split; [apply manual_distribute_outcome|]. split.
  - intros m. by rewrite manual_distribute_outcome.
  - intros inv. apply returns_remaining_raises.
Qed.

(** X15. Paying a return of a positive amount on an existing position with a
    package and a start date: the owner's [total_gain] wallet, created when
    missing, gains the amount and the existing aggregate mirrors it; no
    other wallet changes; the position records the amount and the date;
    exactly one PAID return row, one income row of type BONUS and one
    "credit" audit row are appended. *)
Theorem process_investment_return_effects (db : DB) (id : Z) (inv : UserInvestment)
    (amount : Qc) (D s : Z) :
  investments db !! id = Some inv → is_Some (UserInvestment.package db inv) →
  returns_start_date inv = Some s → 0 < amount →
  ∃ db', _process_investment_return id amount D db = (true, db')
    ∧ (∃ w, wallets db' !! (user_id inv, "total_gain") = Some w
            ∧ balance w = wallet_balance db (user_id inv, "total_gain") + amount)
    ∧ wallets db' !! (user_id inv, "total_income")
      = (λ t, {| balance := balance t + amount; locked_balance := locked_balance t |})
          <$> wallets db !! (user_id inv, "total_income")
    ∧ (∀ k, k ≠ (user_id inv, "total_gain") → k ≠ (user_id inv, "total_income") →
            wallets db' !! k = wallets db !! k)
    ∧ investments db' = <[id := record_return amount D inv]> (investments db)
    ∧ returns db' = returns db ++ [return_row id amount D s]
    ∧ incomes db' = incomes db ++
        [ {| inc_user_id := user_id inv; income_type := BONUS; inc_amount := amount;
             from_user_id := None; inc_level := None |} ]
    ∧ transactions db' = transactions db ++
        [ {| tx_user_id := user_id inv; transaction_type := "credit";
             tx_wallet_type := "total_gain"; tx_amount := amount |} ].
Proof.
  intros Hinv [pkg Hpkg] Hs Hpos.
  unfold _process_investment_return, transactional, process_investment_return_body.
  unfold bind at 1. unfold get_db at 1. rewrite Hinv.
  unfold bind at 1.
  pose proof (first_or_add_wallet_lookup (user_id inv, "total_gain") db) as [w Hw].
  destruct (first_or_add_wallet (user_id inv, "total_gain") db) as [r0 db0] eqn:H0.
  assert (Hfr0 : r0 = Return tt ∧ investments db0 = investments db ∧ returns db0 = returns db
            ∧ incomes db0 = incomes db ∧ transactions db0 = transactions db
            ∧ balance w = wallet_balance db (user_id inv, "total_gain")
            ∧ ∀ k, k ≠ (user_id inv, "total_gain") → wallets db0 !! k = wallets db !! k).
  { revert H0 Hw. unfold first_or_add_wallet, modify, wallet_balance.
    intros [= <- <-]. simpl.
    destruct (wallets db !! _) as [w0|] eqn:Hw0.
    - rewrite Hw0. intros [= <-]. done.
    - rewrite lookup_insert_eq. intros [= <-]. repeat split; try done.
      intros k Hk. by rewrite lookup_insert_ne. }
  destruct Hfr0 as (-> & Hi0 & Hr0 & Hinc0 & Ht0 & Hbal & Hfr). simpl in Hw.
  rewrite Hpkg. unfold bind at 1.
  destruct (add_balance_ok _ _ _ _ Hpos Hw)
    as (db2 & -> & Hw2 & Htx2 & Hmirror & _ & Hfr2 & _ & _ & _ & Hi2 & Hret2 & Hinc2).
  unfold create_bonus_income. msimpl. rewrite Hs. simpl.
  eexists. split; [reflexivity|]. simpl.
  split; [|split; [|split; [|split; [|split; [|split]]]]].
  - eexists. split; [exact Hw2|]. simpl. by rewrite Hbal.
  - rewrite Hmirror by (by apply (bool_decide_unpack _)). by rewrite Hfr.
  - intros k Hk1 Hk2. rewrite Hfr2 by done. by apply Hfr.
  - rewrite Hi2, Hi0. apply map_eq. intros j. destruct (decide (id = j)) as [<-|Hne].
    + by rewrite lookup_alter_eq, lookup_insert_eq, Hinv.
    + by rewrite lookup_alter_ne, lookup_insert_ne.
  - by rewrite Hret2, Hr0.
  - by rewrite Hinc2, Hinc0.
  - by rewrite Htx2, Ht0.
Qed.

Lemma process_investment_return_effects_example :
  investments (db_position ACTIVE) !! 1%Z = Some (position_200 ACTIVE)
  ∧ is_Some (UserInvestment.package (db_position ACTIVE) (position_200 ACTIVE))
  ∧ returns_start_date (position_200 ACTIVE) = Some 11%Z ∧ 0 < #5
  ∧ ∃ db', _process_investment_return 1 #5 20 (db_position ACTIVE) = (true, db')
      ∧ returns db' = returns (db_position ACTIVE) ++ [return_row 1 #5 20 11].
Proof.
  split; [by_compute|]. split; [by_compute|]. split; [by_compute|]. split; [by_compute|].
  destruct (process_investment_return_effects (db_position ACTIVE) 1 (position_200 ACTIVE)
              #5 20 11 ltac:(by_compute) ltac:(by_compute) ltac:(by_compute) ltac:(by_compute))
    as (db' & Hrun & _ & _ & _ & _ & Hret & _).
  exists db'. split; [exact Hrun|exact Hret].
Defined.

(** * The daily run: report and schedule *)

(** X16. The report of a daily run agrees with the return log: the run only
    appends rows, [processed_count] is their number and [total_amount] the
    sum of their amounts, and each of them is dated on the run date, PAID
    and positive. *)
Theorem daily_run_report_matches_log (D : Z) (db : DB) :
  ∃ extra,
    returns (calculate_daily_investment_returns D db).2 = returns db ++ extra
    ∧ processed_count (calculate_daily_investment_returns D db).1 = Z.of_nat (length extra)
    ∧ total_amount (calculate_daily_investment_returns D db).1
      = sumQ (return_amount <$> extra)
    ∧ (∀ r, r ∈ extra → return_date r = D ∧ ret_status r = PAID ∧ 0 < return_amount r).
Proof.
  exists []. rewrite daily_run_is_sweep, app_nil_r. repeat split; try done.
  all: by apply elem_of_nil in H.
Qed.

Lemma sweeps_row_S (n : nat) (D : Z) inv :
  sweeps_row n (D + 1) (sweep_row D inv) = sweeps_row (S n) D inv.
Proof.
  unfold sweeps_row, sweep_row, date_le.
  rewrite (bool_decide_eq_true_2 (0 < S n)%nat) by lia. rewrite andb_true_r.
  replace (D + Z.of_nat (S n) - 1)%Z with (D + 1 + Z.of_nat n - 1)%Z by lia.
  destruct (decide (status inv = ACTIVE)) as [Hs|Hs].
  2:{ rewrite (bool_decide_eq_false_2 (status inv = ACTIVE)) by done. simpl.
      by rewrite (bool_decide_eq_false_2 (status inv = ACTIVE)). }
  rewrite (bool_decide_eq_true_2 (status inv = ACTIVE)) by done. simpl.
  destruct (maturity_date inv) as [m|] eqn:Hm.
  2:{ rewrite Hm. by rewrite andb_false_r. }
  destruct (decide (m ≤ D)%Z) as [Hle|Hgt].
  - rewrite (bool_decide_eq_true_2 (m ≤ D)%Z) by done.
    rewrite (bool_decide_eq_true_2 (m ≤ D + 1 + Z.of_nat n - 1)%Z) by lia. done.
  - rewrite (bool_decide_eq_false_2 (m ≤ D)%Z) by done.
    rewrite Hm, (bool_decide_eq_true_2 (status inv = ACTIVE)) by done. simpl.
    destruct n as [|n].
    + rewrite (bool_decide_eq_false_2 (0 < 0)%nat) by lia. rewrite andb_false_r.
      by rewrite (bool_decide_eq_false_2 (m ≤ D + 1 + Z.of_nat 0 - 1)%Z) by lia.
    + by rewrite (bool_decide_eq_true_2 (0 < S n)%nat), andb_true_r by lia.
Qed.

Lemma run_days_is_sweeps (n : nat) (D : Z) (db : DB) :
  wallets (run_days n D db) = wallets db
  ∧ returns (run_days n D db) = returns db
  ∧ transactions (run_days n D db) = transactions db
  ∧ incomes (run_days n D db) = incomes db
  ∧ ∀ id, investments (run_days n D db) !! id = sweeps_row n D <$> investments db !! id.
Proof.
  revert D db. induction n as [|n IH]; intros D db.
  - simpl. repeat split; try done. intros id. destruct (investments db !! id) as [inv|]; [|done].
    simpl. f_equal. unfold sweeps_row.
    by rewrite (bool_decide_eq_false_2 (0 < 0)%nat), andb_false_r by lia.
  - cbn [run_days]. rewrite daily_run_is_sweep. cbn [snd].
    destruct (IH (D + 1)%Z (_update_investment_statuses D db)) as (Hw & Hr & Ht & Hi & Hinv).
    split; [by rewrite Hw|]. split; [by rewrite Hr|]. split; [by rewrite Ht|].
    split; [by rewrite Hi|]. intros id. rewrite Hinv.
    unfold _update_investment_statuses. simpl. rewrite lookup_fmap. fold (sweep_row D).
    destruct (investments db !! id) as [inv|]; [|done]. simpl. f_equal.
    apply sweeps_row_S.
Qed.

(** X17. Daily runs never pay: after any number of consecutive daily runs
    no wallet, return row, audit row or income row has changed, and every
    position is as it was except that an ACTIVE position whose maturity
    date has been reached by the last run is MATURED; in particular a
    position that stays through its whole term ends MATURED with the
    [total_returns_paid] it started with. *)
Theorem daily_runs_never_pay (n : nat) (D : Z) (db : DB) :
  wallets (run_days n D db) = wallets db
  ∧ returns (run_days n D db) = returns db
  ∧ transactions (run_days n D db) = transactions db
  ∧ incomes (run_days n D db) = incomes db
  ∧ (∀ id inv, investments db !! id = Some inv →
       ∃ inv', investments (run_days n D db) !! id = Some inv'
         ∧ total_returns_paid inv' = total_returns_paid inv
         ∧ last_return_date inv' = last_return_date inv
         ∧ amount_invested inv' = amount_invested inv
         ∧ (status inv' = status inv ∨ (status inv = ACTIVE ∧ status inv' = MATURED)))
  ∧ (∀ id inv m, investments db !! id = Some inv → status inv = ACTIVE →
       maturity_date inv = Some m → (0 < n)%nat → (m ≤ D + Z.of_nat n - 1)%Z →
       investments (run_days n D db) !! id = Some (UserInvestment.set_status MATURED inv)).
Proof.
  destruct (run_days_is_sweeps n D db) as (Hw & Hr & Ht & Hi & Hinv).
  split; [done|]. split; [done|]. split; [done|]. split; [done|]. split.
  - intros id inv Hid. rewrite Hinv, Hid. simpl. eexists. split; [reflexivity|].
    unfold sweeps_row. destruct (_ && _ && _) eqn:Hc; simpl; [|by eauto].
    repeat split; try done. right. split; [|done].
    apply andb_true_iff in Hc as [[Hs _]%andb_true_iff _]. by apply bool_decide_eq_true in Hs.
  - intros id inv m Hid Hs Hm Hn Hle. rewrite Hinv, Hid. simpl. f_equal.
    unfold sweeps_row, date_le. rewrite Hm. by rewrite !bool_decide_eq_true_2.
Qed.

Lemma daily_runs_never_pay_example :
  wallets (run_days 181 11 (db_position ACTIVE)) = wallets (db_position ACTIVE)
  ∧ returns (run_days 181 11 (db_position ACTIVE)) = []
  ∧ investments (run_days 181 11 (db_position ACTIVE)) !! 1%Z
    = Some (position_200 MATURED).
Proof.
  destruct (daily_runs_never_pay 181 11 (db_position ACTIVE))
    as (Hwallets & Hreturns & _ & _ & _ & Hmatured).
  split; [exact Hwallets|]. split; [exact Hreturns|].
  apply (Hmatured 1%Z (position_200 ACTIVE) 191%Z); [by_compute|done|done|lia|lia].
Defined.

(** * More of the referral graph *)

Lemma create_referral_chain_loop_links users new_user_id max_levels cur lvl visited acc :
  ∃ ext, create_referral_chain_loop users new_user_id max_levels cur lvl visited acc = acc ++ ext
    ∧ (∀ r, ext !! 0%nat = Some r → cur = Some (referrer_id r))
    ∧ (∀ i r r', ext !! i = Some r → ext !! S i = Some r' →
         users !! referrer_id r ≫= sponsor_id = Some (referrer_id r'))
    ∧ (ext = [] ↔ truthy cur = false ∨ (max_levels < lvl)%Z ∨ ∃ c, cur = Some c ∧ c ∈ visited).
Proof.
  funelim (create_referral_chain_loop users new_user_id max_levels cur lvl visited acc).
  - exists []. rewrite app_nil_r. split; [done|]. split; [done|]. split; [done|].
    split; [by left|done].
  - exists []. rewrite app_nil_r. split; [done|]. split; [done|]. split; [done|].
    split; [|done]. intros _.
    match goal with Hn : ¬ (_ ≠ 0%Z ∧ _) |- _ => rename Hn into Hstop end.
    destruct (decide (c = 0%Z)) as [->|Hc]; [by left|]. right. left.
    apply Z.lt_nge. intros Hle. by apply Hstop.
  - exists []. rewrite app_nil_r. split; [done|]. split; [done|]. split; [done|].
    split; [|done]. intros _. right. right. eauto.
  - match goal with IH : ∃ _, _ |- _ => destruct IH as (ext & Hext & Hhd & Hlk & _) end.
    eexists (_ :: ext). split; [rewrite Hext; by rewrite <- app_assoc|].
    split; [by intros r [= <-]|]. split.
    + intros [|i] r r'; simpl.
      * intros [= <-] Hr'. simpl. by apply Hhd.
      * apply Hlk.
    + split; [done|]. intros [Hf|[Hlt|(c' & [= <-] & Hin)]].
      * simpl in Hf. apply bool_decide_eq_false in Hf. exfalso. apply Hf. apply a.
      * lia.
      * done.
Qed.

(** X18. Creating a referral chain never fails and appends the new edges to
    the table: the first edge is held by the given sponsor, each next edge
    by the sponsor of the holder before it, the chain is empty exactly when
    the sponsor is falsy or [max_levels] is below one, and it has at most
    [max_levels] edges. *)
Theorem referral_chain_follows_sponsors (db : DB) (sponsor : option Z)
    (new_user_id max_levels : Z) :
  ∃ refs db',
    create_referral_chain sponsor new_user_id max_levels db = (Return refs, db')
    ∧ referrals db' = referrals db ++ refs
    ∧ (∀ r, refs !! 0%nat = Some r → sponsor = Some (referrer_id r))
    ∧ (∀ i r r', refs !! i = Some r → refs !! S i = Some r' →
         users db !! referrer_id r ≫= sponsor_id = Some (referrer_id r'))
    ∧ (refs = [] ↔ truthy sponsor = false ∨ (max_levels < 1)%Z)
    ∧ (length refs ≤ Z.to_nat max_levels)%nat.
Proof.
  unfold create_referral_chain. destruct (truthy sponsor) eqn:Ht.
  - destruct (create_referral_chain_loop_links (users db) new_user_id max_levels sponsor 1 ∅ [])
      as (ext & Heq & Hhd & Hlk & Hnil).
    destruct (create_referral_chain_loop_spec (users db) new_user_id max_levels sponsor 1 ∅ [])
      as (ext' & Heq' & Hlen & _).
    rewrite app_nil_l in Heq, Heq'. assert (ext' = ext) as -> by congruence.
    unfold bind, get_db, modify, ret. rewrite Heq.
    eexists _, _. split; [reflexivity|]. simpl.
    split; [done|]. split; [done|]. split; [done|]. split; [|lia].
    rewrite Hnil. split.
    + intros [?|[?|(c & _ & Hc)]]; [congruence|by right|]. by apply not_elem_of_empty in Hc.
    + intros [?|?]; [congruence|]. right. by left.
  - exists [], db. unfold ret. rewrite app_nil_r. repeat split; try done; simpl; try lia.
Qed.

(** * Commission bookkeeping *)

Lemma pay_commission_books uid A rates ir db :
  payable db A rates ir.2 → is_Some (users db !! uid) →
  ∃ db', pay_commission uid A rates ir db = (Return [commission_of A rates ir.2], db') ∧
    incomes db' = incomes db ++ [income_of uid A rates ir.2] ∧
    referrals db' = alter (add_commission_earned (A * rate_of rates (level ir.2) / #100)) ir.1
                      (referrals db) ∧
    users db' = alter (add_total_earnings (A * rate_of rates (level ir.2) / #100))
                  (referrer_id ir.2) (users db) ∧
    investments db' = investments db ∧ packages db' = packages db ∧ returns db' = returns db.
Proof.
  intros [Hpos Hact] [buyer Hbuyer]. unfold pay_commission.
  rewrite calculate_commission_rate. rewrite decide_True by done.
  unfold bind at 1. unfold get_db at 1.
  destruct (users db !! referrer_id ir.2) as [u|] eqn:Hu; [|done].
  simpl in Hact. injection Hact as Hact. rewrite Hact.
  unfold bind at 1.
  pose proof (first_or_add_wallet_lookup (referrer_id ir.2, wallet_type_for (level ir.2)) db) as [w Hw].
  destruct (first_or_add_wallet (referrer_id ir.2, wallet_type_for (level ir.2)) db) as [r0 db0] eqn:H0.
  assert (Hfr0 : r0 = Return tt ∧ users db0 = users db ∧ incomes db0 = incomes db ∧
            referrals db0 = referrals db ∧ investments db0 = investments db ∧
            packages db0 = packages db ∧ returns db0 = returns db).
  { revert H0. unfold first_or_add_wallet, modify. by intros [= <- <-]. }
  destruct Hfr0 as (-> & Hu0 & Hi0 & Hr0 & Hv0 & Hp0 & Hq0). simpl in Hw.
  unfold bind at 1. unfold query_user at 1. rewrite Hu0, Hbuyer.
  unfold bind at 1.
  destruct (add_balance_ok _ _ _ _ Hpos Hw)
    as (db2 & -> & _ & _ & _ & _ & _ & Hu2 & Hr2 & Hp2 & Hv2 & Hq2 & Hi2).
  msimpl. eexists. split; [reflexivity|]. simpl.
  rewrite Hi2, Hi0, Hr2, Hr0, Hu2, Hu0, Hv2, Hv0, Hp2, Hp0, Hq2, Hq0.
  unfold income_of. done.
Qed.

Lemma alter_total_earnings_active c id (m : gmap Z User) id' :
  is_active <$> alter (add_total_earnings c) id m !! id' = is_active <$> m !! id'.
Proof.
  destruct (decide (id = id')) as [->|Hne].
  - rewrite lookup_alter_eq. by destruct (m !! id').
  - by rewrite lookup_alter_ne.
Qed.

Lemma pay_commissions_books uid A rates rows db :
  is_Some (users db !! uid) →
  let paid := filter (payable db A rates) rows.*2 in
  let c := λ r, A * rate_of rates (level r) / #100 in
  ∃ db', pay_commissions uid A rates rows db = (Return (commission_of A rates <$> paid), db') ∧
    incomes db' = incomes db ++ (income_of uid A rates <$> paid) ∧
    investments db' = investments db ∧ packages db' = packages db ∧ returns db' = returns db ∧
    length (referrals db') = length (referrals db) ∧
    (∀ i, (∀ ir, ir ∈ rows → payable db A rates ir.2 → ir.1 ≠ i) →
          referrals db' !! i = referrals db !! i) ∧
    (NoDup rows.*1 → ∀ ir, ir ∈ rows → payable db A rates ir.2 →
          referrals db' !! ir.1 = add_commission_earned (c ir.2) <$> referrals db !! ir.1) ∧
    (∀ id, id ∉ referrer_id <$> paid → users db' !! id = users db !! id) ∧
    (NoDup (referrer_id <$> rows.*2) → ∀ r, r ∈ paid →
          users db' !! referrer_id r = add_total_earnings (c r) <$> users db !! referrer_id r).
Proof.
  revert db. induction rows as [|ir rows IH]; intros db Hbuyer; simpl.
  { eexists. split; [reflexivity|]. rewrite app_nil_r. repeat split; try done.
    - intros _ r Hr. by apply elem_of_nil in Hr.
    - intros _ r Hr. by apply elem_of_nil in Hr. }
  rewrite filter_cons. destruct (decide (payable db A rates ir.2)) as [Hp|Hp].
  - destruct (pay_commission_books uid A rates ir db Hp Hbuyer)
      as (db1 & Hpay & Hi1 & Hr1 & Hu1 & Hv1 & Hp1 & Hq1).
    assert (Hact1 : ∀ id, is_active <$> users db1 !! id = is_active <$> users db !! id).
    { intros id. rewrite Hu1. apply alter_total_earnings_active. }
    assert (Hbuyer1 : is_Some (users db1 !! uid)).
    { specialize (Hact1 uid). destruct Hbuyer as [b Hb]. rewrite Hb in Hact1.
      destruct (users db1 !! uid); [eauto|done]. }
    destruct (IH db1 Hbuyer1)
      as (db' & Hrest & Hi' & Hv' & Hp' & Hq' & Hlen' & Hfr' & Hrow' & Hufr' & Hu').
    rewrite (filter_payable_ext db1 db A rates) in * by done.
    unfold bind. rewrite Hpay, Hrest. eexists. split; [reflexivity|].
    split; [by rewrite Hi', Hi1, fmap_cons, <- app_assoc|].
    split; [congruence|]. split; [congruence|]. split; [congruence|].
    split; [by rewrite Hlen', Hr1, length_alter|]. split; [|split; [|split]].
    + intros i Hi. rewrite Hfr'.
      * rewrite Hr1. apply list_lookup_alter_ne. apply Hi; [by left|done].
      * intros ir' Hin Hpay'. apply Hi; [by right|].
        by apply (payable_ext db1 db A rates ir'.2 Hact1).
    + intros Hnd ir' Hin Hpay'. simpl in Hnd.
      pose proof (NoDup_cons_1_1 _ _ Hnd) as Hhd. apply NoDup_cons_1_2 in Hnd.
      apply elem_of_cons in Hin as [->|Hin].
      * rewrite Hfr'; [by rewrite Hr1, list_lookup_alter_eq|].
        intros ir' Hin _ Heq. apply Hhd. apply list_elem_of_fmap. by exists ir'.
      * rewrite (Hrow' Hnd ir' Hin); [|by apply (payable_ext db1 db A rates ir'.2 Hact1)].
        rewrite Hr1, list_lookup_alter_ne; [done|].
        intros Heq. apply Hhd. apply list_elem_of_fmap. by exists ir'.
    + intros id Hid. rewrite fmap_cons in Hid. apply not_elem_of_cons in Hid as [Hne Hid].
      rewrite Hufr' by done. rewrite Hu1. by rewrite lookup_alter_ne.
    + intros Hnd r Hr. simpl in Hnd.
      pose proof (NoDup_cons_1_1 _ _ Hnd) as Hhd. apply NoDup_cons_1_2 in Hnd.
      apply elem_of_cons in Hr as [->|Hr].
      * rewrite Hufr'; [by rewrite Hu1, lookup_alter_eq|].
        intros Hin. apply Hhd. apply list_elem_of_fmap in Hin as (r & Heq & Hr).
        apply list_elem_of_fmap. exists r. split; [done|].
        by apply list_elem_of_filter in Hr as [_ ?].
      * rewrite (Hu' Hnd r Hr). rewrite Hu1, lookup_alter_ne; [done|].
        intros Heq. apply Hhd. apply list_elem_of_fmap. exists r. split; [done|].
        by apply list_elem_of_filter in Hr as [_ ?].
  - destruct (IH db Hbuyer)
      as (db' & Hrest & Hi' & Hv' & Hp' & Hq' & Hlen' & Hfr' & Hrow' & Hufr' & Hu').
    unfold bind. rewrite (pay_commission_skip uid A rates ir db Hp), Hrest.
    eexists. split; [reflexivity|].
    split; [done|]. split; [done|]. split; [done|]. split; [done|]. split; [done|].
    split; [|split; [|split]].
    + intros i Hi. apply Hfr'. intros ir' Hin. apply Hi. by right.
    + intros Hnd ir' Hin Hpay'. simpl in Hnd. apply NoDup_cons_1_2 in Hnd.
      apply elem_of_cons in Hin as [->|Hin]; [done|]. by apply Hrow'.
    + done.
    + intros Hnd. apply Hu'. simpl in Hnd. by apply NoDup_cons_1_2 in Hnd.
Qed.

Lemma elem_of_upline_referrals uid db i r :
  (i, r) ∈ upline_referrals uid db ↔
  referrals db !! i = Some r ∧ referred_id r = uid ∧ ref_is_active r = true.
Proof.
  unfold upline_referrals. rewrite list_elem_of_filter, elem_of_lookup_imap. simpl. split.
  - intros [Hp (j & y & [= -> ->] & Hl)]. tauto.
  - intros (Hl & Hp). split; [done|]. eauto.
Qed.

Lemma NoDup_filter_fst {A B} (P : A * B → Prop) `{∀ x, Decision (P x)} (l : list (A * B)) :
  NoDup l.*1 → NoDup (filter P l).*1.
Proof.
  induction l as [|x l IH]; [done|]. simpl. intros Hnd.
  pose proof (NoDup_cons_1_1 _ _ Hnd) as Hhd. apply NoDup_cons_1_2 in Hnd.
  rewrite filter_cons. destruct (decide (P x)); [|by apply IH].
  simpl. apply NoDup_cons_2; [|by apply IH].
  intros Hin. apply Hhd. apply list_elem_of_fmap in Hin as (y & -> & Hy).
  apply list_elem_of_fmap. exists y. split; [done|]. by apply list_elem_of_filter in Hy as [_ ?].
Qed.

Lemma NoDup_upline_referrals uid db : NoDup (upline_referrals uid db).*1.
Proof.
  unfold upline_referrals. apply NoDup_filter_fst.
  rewrite fmap_imap. unfold compose. simpl.
  apply NoDup_alt. intros i j x. rewrite !list_lookup_imap.
  destruct (referrals db !! i) eqn:Hi, (referrals db !! j) eqn:Hj; simpl; congruence.
Qed.

(** X19. Bookkeeping of a commission run, for a buyer whose upline edges have
    distinct referrers: one income row per paid edge, in payment order, of
    type "Direct Referral" for level 1 and "Level Bonus" otherwise; each
    paid edge's [total_commission_earned] and its referrer's
    [total_earnings] grow by exactly the commission; no other edge or user
    changes, and investments, packages and the return log are untouched. *)
Theorem commission_bookkeeping (db : DB) (uid : Z) (A : Qc) (rates : option (gmap Z Qc)) :
  is_Some (users db !! uid) →
  NoDup (referrer_id <$> (upline_referrals uid db).*2) →
  let paid := filter (payable db A rates) (upline_referrals uid db).*2 in
  let c := λ r, A * rate_of rates (level r) / #100 in
  ∃ db',
    distribute_commissions uid A rates db = (Return (commission_of A rates <$> paid), db')
    ∧ incomes db' = incomes db ++ (income_of uid A rates <$> paid)
    ∧ (∀ i r, referrals db !! i = Some r →
         referrals db' !! i =
           Some (if decide (referred_id r = uid ∧ ref_is_active r = true ∧ payable db A rates r)
                 then add_commission_earned (c r) r else r))
    ∧ length (referrals db') = length (referrals db)
    ∧ (∀ r, r ∈ paid →
         users db' !! referrer_id r = add_total_earnings (c r) <$> users db !! referrer_id r)
    ∧ (∀ id, id ∉ referrer_id <$> paid → users db' !! id = users db !! id)
    ∧ investments db' = investments db ∧ packages db' = packages db
    ∧ returns db' = returns db.
Proof.
  intros Hbuyer Hnd. simpl. unfold distribute_commissions. unfold bind, get_db.
  destruct (pay_commissions_books uid A rates (upline_referrals uid db) db Hbuyer)
    as (db' & Hrun & Hi & Hv & Hp & Hq & Hlen & Hfr & Hrow & Hufr & Hu).
  exists db'. split; [done|]. split; [done|].
  split; [|split; [done|]; split; [by apply Hu|]; split; [done|]; done].
  intros i r Hl. case_decide as Hd.
  - destruct Hd as (Hr & Ha & Hpay).
    assert (Hin : (i, r) ∈ upline_referrals uid db) by by apply elem_of_upline_referrals.
    pose proof (Hrow (NoDup_upline_referrals uid db) (i, r) Hin Hpay) as Hrw.
    simpl in Hrw. by rewrite Hrw, Hl.
  - rewrite Hfr; [done|]. intros [j r'] Hin Hpay Heq. simpl in *. subst j.
    apply elem_of_upline_referrals in Hin as (Hl' & Hr & Ha).
    assert (r' = r) as -> by congruence. tauto.
Qed.

Lemma commission_bookkeeping_example :
  is_Some (users db_upline !! 3%Z)
  ∧ NoDup (referrer_id <$> (upline_referrals 3 db_upline).*2)
  ∧ ∃ db', (distribute_commissions 3 #1000 rates_10_5 db_upline).2 = db'
      ∧ incomes db' = [income_of 3 #1000 rates_10_5 (edge 1 1);
                       income_of 3 #1000 rates_10_5 (edge 2 2)]
      ∧ users db' !! 1%Z = Some (add_total_earnings (#1000 * #10 / #100) (member None)).
Proof.
  split; [by_compute|]. split; [by_compute|].
  destruct (commission_bookkeeping db_upline 3 #1000 rates_10_5
              ltac:(by_compute) ltac:(by_compute)) as (db' & Hrun & Hinc & _ & _ & Hu & _).
  exists db'. split; [by rewrite Hrun|]. split.
  - rewrite Hinc. by_compute.
  - pose proof (Hu (edge 1 1) ltac:(by_compute)) as H1.
    change (referrer_id (edge 1 1)) with 1%Z in H1. rewrite H1. by_compute.
Defined.

(** * Purchase *)

Lemma next_id_fresh (table : gmap Z UserInvestment) :
  table !! InvestmentsApi.next_id table = None.
Proof.
  unfold InvestmentsApi.next_id.
  assert (Hmax : ∀ k v, table !! k = Some v →
            (k ≤ map_fold (λ k (_ : UserInvestment) largest, k `max` largest) 0 table)%Z).
  { apply (map_fold_weak_ind (λ r (m : gmap Z UserInvestment), ∀ k v, m !! k = Some v → (k ≤ r)%Z)).
    - intros k v Hk. by rewrite lookup_empty in Hk.
    - intros i x m r Hi IH k v Hk. destruct (decide (i = k)) as [->|Hne]; [lia|].
      rewrite lookup_insert_ne in Hk by done. specialize (IH k v Hk). lia. }
  destruct (table !! _) as [v|] eqn:Hk; [|done]. apply Hmax in Hk. lia.
Qed.

Lemma distribute_commissions_frame uid A rates db :
  is_Some (users db !! uid) →
  ∃ out db', distribute_commissions uid A rates db = (Return out, db')
    ∧ investments db' = investments db ∧ packages db' = packages db
    ∧ returns db' = returns db
    ∧ (∀ k, k.2 = "available_fund" → wallets db' !! k = wallets db !! k).
Proof.
  intros Hbuyer. unfold distribute_commissions, bind, get_db.
  destruct (pay_commissions_spec uid A rates (upline_referrals uid db) db Hbuyer)
    as (db' & Hrun & _ & _ & Hfr & _).
  destruct (pay_commissions_books uid A rates (upline_referrals uid db) db Hbuyer)
    as (db2 & Hrun2 & _ & Hv & Hp & Hq & _).
  rewrite Hrun in Hrun2. injection Hrun2 as <-.
  eexists _, db'. split; [exact Hrun|]. split; [done|]. split; [done|]. split; [done|].
  intros [u t] Ht. simpl in Ht. subst t. apply Hfr. intros r _. unfold target.
  split; [case_decide; congruence|congruence].
Qed.

Lemma purchase_body_outcome uid pid package amount today db :
  is_Some (users db !! uid) → 0 < amount →
  (∃ m db', InvestmentsApi.purchase_body uid pid package amount today db
            = (Return (inl (Rejected 400 m)), db')
        ∧ (m = "Insufficient available funds" ∨ m = "Daily investment limit exceeded"))
  ∨ (∃ w db',
       InvestmentsApi.purchase_body uid pid package amount today db
       = (Return (inr (InvestmentsApi.next_id (investments db))), db')
       ∧ wallets db !! (uid, "available_fund") = Some w
       ∧ amount ≤ balance w
       ∧ InvestmentsApi.today_investments uid today db + amount ≤ InvestmentsApi.daily_limit
       ∧ investments db'
         = <[InvestmentsApi.next_id (investments db) :=
               new_position uid pid package amount today]> (investments db)
       ∧ wallets db' !! (uid, "available_fund")
         = Some {| balance := balance w - amount; locked_balance := locked_balance w |}
       ∧ packages db' = packages db ∧ returns db' = returns db).
Proof.
  intros Hbuyer Hpos.
  destruct (InvestmentsApi.purchase_body uid pid package amount today db) as [r d] eqn:Hb.
  revert Hb. unfold InvestmentsApi.purchase_body.
  unfold bind at 1. unfold Wallet.initialize_user_wallets at 1, modify at 1.
  unfold bind at 1. unfold get_db at 1.
  set (db0 := set_wallets _ db).
  assert (Hw0 : ∀ k, wallets db0 !! k = match wallets db !! k with
            | Some w => Some w
            | None => if decide (k.1 = uid ∧ k.2 ∈ Wallet.get_wallet_types)
                      then Some zero_wallet else None end).
  { intros k. unfold db0, set_wallets. cbn [wallets]. fold zero_wallet.
    apply initialize_fold_lookup. }
  assert (Hi0 : investments db0 = investments db) by done.
  assert (Hu0 : users db0 = users db) by done.
  assert (Hp0 : packages db0 = packages db) by done.
  assert (Hq0 : returns db0 = returns db) by done.
  clearbody db0.
  destruct (wallets db0 !! (uid, "available_fund")) as [aw|] eqn:Haw.
  2:{ rewrite Hw0 in Haw. destruct (wallets db !! (uid, "available_fund")); [done|].
      rewrite decide_True in Haw; [done|]. split; [done|]. by apply (bool_decide_unpack _). }
  case_decide as Hbal; [intros [= <- <-]; left; eauto|].
  case_decide as Hlim; [intros [= <- <-]; left; eauto|].
  assert (Hw : wallets db !! (uid, "available_fund") = Some aw).
  { rewrite Hw0 in Haw. destruct (wallets db !! (uid, "available_fund")) as [w|]; [done|].
    case_decide; [|done]. injection Haw as <-. destruct Hbal. by simpl. }
  msimpl.
  set (db1 := set_transactions _ _).
  assert (Hbuyer1 : is_Some (users db1 !! uid)) by (unfold db1; simpl; by rewrite Hu0).
  destruct (distribute_commissions_frame uid amount None db1 Hbuyer1)
    as (out & db2 & Hrun & Hv2 & Hp2 & Hq2 & Hw2).
  assert (Hfin : wallets db2 !! (uid, "available_fund")
            = Some {| balance := balance aw - amount; locked_balance := locked_balance aw |}).
  { rewrite (Hw2 (uid, "available_fund") eq_refl). unfold db1. simpl.
    by rewrite lookup_alter_eq, Haw. }
  assert (Hv1 : investments db1
            = <[InvestmentsApi.next_id (investments db) :=
                  new_position uid pid package amount today]> (investments db)).
  { unfold db1. simpl. by rewrite Hi0. }
  assert (Hp1 : packages db1 = packages db) by (unfold db1; simpl; done).
  assert (Hq1 : returns db1 = returns db) by (unfold db1; simpl; done).
  clearbody db1.
  unfold best_effort. rewrite Hrun. rewrite Hi0. intros [= <- <-]. right.
  exists aw, db2. split; [done|]. split; [done|]. split; [by apply Qcnot_lt_le|].
  split; [unfold InvestmentsApi.today_investments in *; rewrite <- Hi0; by apply Qcnot_lt_le|].
  split; [by rewrite Hv2, Hv1|].
  split; [done|]. split; [by rewrite Hp2|by rewrite Hq2].
Qed.

(** Every reply of the purchase handler, and what it leaves in the store:
    either the store is as it was and the reply is one of the rejections,
    or the purchase is stored and the reply is the error reply carrying
    the [TypeError] of [to_dict]. *)
Lemma purchase_investment_cases uid pid amount today db r db' :
  InvestmentsApi.purchase_investment uid pid amount today db = (r, db') →
  (r ≠ InvestmentsApi.error_reply "TypeError"
   ∧ (∃ c m, r = Rejected c m
        ∧ m ≠ "Package is no longer accepting new investments"
        ∧ m ≠ "Available fund wallet not found")
   ∧ db' = db)
  ∨ (r = InvestmentsApi.error_reply "TypeError"
     ∧ ∃ package w,
         packages db !! pid = Some package
         ∧ InvestmentPackage.is_available_for_investment today package = true
         ∧ end_date package = None
         ∧ 0 < amount ∧ min_amount package ≤ amount
         ∧ wallets db !! (uid, "available_fund") = Some w
         ∧ amount ≤ balance w
         ∧ InvestmentsApi.today_investments uid today db + amount ≤ InvestmentsApi.daily_limit
         ∧ investments db !! InvestmentsApi.next_id (investments db) = None
         ∧ investments db'
           = <[InvestmentsApi.next_id (investments db) :=
                 new_position uid pid package amount today]> (investments db)
         ∧ wallets db' !! (uid, "available_fund")
           = Some {| balance := balance w - amount; locked_balance := locked_balance w |}
         ∧ packages db' = packages db ∧ returns db' = returns db).
Proof.
  assert (Hearly : ∀ c m,
            m ≠ "Package is no longer accepting new investments" →
            m ≠ "Available fund wallet not found" →
            Rejected c m ≠ InvestmentsApi.error_reply "TypeError" →
            (Rejected c m, db) = (r, db') →
            (r ≠ InvestmentsApi.error_reply "TypeError"
             ∧ (∃ c m, r = Rejected c m
                  ∧ m ≠ "Package is no longer accepting new investments"
                  ∧ m ≠ "Available fund wallet not found")
             ∧ db' = db)).
  { intros c m H1 H2 H3 [= <- <-]. split; [done|]. split; [|done]. eauto. }
  unfold InvestmentsApi.purchase_investment.
  case_decide as H0; [intros Hr; left; revert Hr; by apply Hearly|].
  case_decide as Hpos; [intros Hr; left; revert Hr; by apply Hearly|].
  apply Qcnot_le_lt in Hpos.
  destruct (packages db !! pid) as [package|] eqn:Hpkg;
    [|intros Hr; left; revert Hr; by apply Hearly].
  destruct (InvestmentPackage.is_available_for_investment today package) eqn:Hav;
    [|intros Hr; left; revert Hr; by apply Hearly].
  simpl. destruct (end_date package) as [e|] eqn:Hend.
  { intros Hr; left; revert Hr. unfold InvestmentsApi.error_reply. by apply Hearly. }
  case_decide as Hmin; [intros Hr; left; revert Hr; by apply Hearly|].
  apply Qcnot_lt_le in Hmin.
  destruct (match max_amount package with Some _ => _ | None => _ end);
    [intros Hr; left; revert Hr; by apply Hearly|].
  destruct (users db !! uid) as [user|] eqn:Hu;
    [|intros Hr; left; revert Hr; by apply Hearly].
  destruct (is_active user); simpl; [|intros Hr; left; revert Hr; by apply Hearly].
  destruct (purchase_body_outcome uid pid package amount today db ltac:(eauto) Hpos)
    as [(m & db1 & -> & Hm)|(w & db1 & -> & Hw & Hle & Hlim & Hinv & Hw1 & Hp1 & Hq1)].
  - intros Hr; left; revert Hr. destruct Hm as [-> | ->]; by apply Hearly.
  - assert (Hreply : InvestmentsApi.purchase_reply uid (InvestmentsApi.next_id (investments db)) db1
                     = (Raise "TypeError", db1)).
    { unfold InvestmentsApi.purchase_reply, bind, get_db.
      rewrite Hinv, lookup_insert_eq. rewrite to_dict_raises.
      unfold UserInvestment.package. cbn [package_id new_position]. by rewrite Hp1, Hpkg. }
    rewrite Hreply. intros [= <- <-]. right. split; [done|].
    exists package, w. do 8 (split; [done|]). split; [apply next_id_fresh|]. done.
Qed.

(** X20. What a purchase leaves behind.  The handler never gives its
    success reply: the reply is built after the commit from
    [investment.to_dict], which raises.  When the reply is the error
    reply of that [TypeError], the purchase is stored: the package exists,
    is open and has no closing date, the amount is within its limits, the
    buyer's spending wallet existed and held at least the amount, the new
    position has a fresh id, is ACTIVE, starts earning the next day and
    matures [duration_days] later, and the wallet is debited by exactly
    the amount with its lock untouched; the position is not selected by a
    run dated on the purchase day and is selected the next day when the
    package lasts at least one day.  With any other reply the store is as
    it was. *)
Theorem purchase_commit_spec (db : DB) (uid pid : Z) (amount : Qc) (today : Z) :
  let reply := (InvestmentsApi.purchase_investment uid pid amount today db).1 in
  let db' := (InvestmentsApi.purchase_investment uid pid amount today db).2 in
  (∀ id b, reply ≠ Purchased id b)
  ∧ (reply ≠ InvestmentsApi.error_reply "TypeError" → db' = db)
  ∧ (reply = InvestmentsApi.error_reply "TypeError" →
     ∃ package w id,
       packages db !! pid = Some package
       ∧ InvestmentPackage.is_available_for_investment today package = true
       ∧ end_date package = None
       ∧ 0 < amount ∧ min_amount package ≤ amount
       ∧ wallets db !! (uid, "available_fund") = Some w
       ∧ amount ≤ balance w
       ∧ InvestmentsApi.today_investments uid today db + amount ≤ InvestmentsApi.daily_limit
       ∧ investments db !! id = None
       ∧ investments db' = <[id := new_position uid pid package amount today]> (investments db)
       ∧ wallets db' !! (uid, "available_fund")
         = Some {| balance := balance w - amount; locked_balance := locked_balance w |}
       ∧ packages db' = packages db ∧ returns db' = returns db
       ∧ eligible today (new_position uid pid package amount today) = false
       ∧ ((0 < duration_days package)%Z →
          eligible (today + 1) (new_position uid pid package amount today) = true)).
Proof.
  simpl.
  destruct (InvestmentsApi.purchase_investment uid pid amount today db) as [r db'] eqn:Hrun.
  simpl. apply purchase_investment_cases in Hrun
    as [(Hne & (c & m & -> & _) & ->)|(-> & package & w & H1 & H2 & H3 & H4 & H5 & H6 & H7 & H8
                                        & H9 & H10 & H11 & H12 & H13)].
  - split; [done|]. split; [done|]. intros Heq. by destruct Hne.
  - split; [done|]. split; [intros Hne; by destruct Hne|]. intros _.
    exists package, w, (InvestmentsApi.next_id (investments db)). do 13 (split; [done|]).
    unfold eligible, new_position. simpl. split.
    + rewrite (bool_decide_eq_false_2 (today + 1 ≤ today)%Z) by lia. done.
    + intros Hd. rewrite !bool_decide_eq_true_2 by lia. done.
Qed.

Lemma purchase_commit_spec_example :
  (InvestmentsApi.purchase_investment 1 7 #80 10 db_locked).1
  = InvestmentsApi.error_reply "TypeError"
  ∧ ∃ package,
      investments (InvestmentsApi.purchase_investment 1 7 #80 10 db_locked).2
      = <[1%Z := new_position 1 7 package #80 10]> (investments db_locked)
      ∧ eligible 10 (new_position 1 7 package #80 10) = false.
Proof.
  assert (Hrun : (InvestmentsApi.purchase_investment 1 7 #80 10 db_locked).1
                 = InvestmentsApi.error_reply "TypeError") by by_compute.
  split; [exact Hrun|].
  destruct (purchase_commit_spec db_locked 1 7 #80 10) as (_ & _ & Hcommit).
  destruct (Hcommit Hrun)
    as (package & w & id & _ & _ & _ & _ & _ & _ & _ & _ & Hfresh & Hinv & _ & _ & _ & Hel & _).
  exists package. split; [|exact Hel].
  assert (Hid : id = 1%Z).
  { assert (Hl : investments (InvestmentsApi.purchase_investment 1 7 #80 10 db_locked).2 !! 1%Z
                 ≠ None) by by_compute.
    destruct (decide (id = 1%Z)) as [->|Hne]; [done|].
    rewrite Hinv, lookup_insert_ne in Hl by done. by destruct Hl. }
  subst id. exact Hinv.
Defined.

(** * The invested total of a user *)

Lemma get_total_investment_total_of uid db :
  User.get_total_investment uid db = total_of uid (investments db).
Proof. done. Qed.

Lemma total_of_insert uid id inv (table : gmap Z UserInvestment) :
  table !! id = None →
  total_of uid (<[id := inv]> table) = total_of uid table + counted uid inv.
Proof.
  intros Hid. unfold total_of. rewrite map_fold_insert_L; [| | done].
  2:{ intros j1 j2 z1 z2 y _ _ _. repeat case_decide; try done. qc_lra. }
  unfold counted. case_decide; [done|]. by rewrite Qcplus_0_r.
Qed.

Lemma total_of_replace uid id old new (table : gmap Z UserInvestment) :
  table !! id = Some old →
  total_of uid (<[id := new]> table) = total_of uid table - counted uid old + counted uid new.
Proof.
  intros Hid. rewrite <- (insert_delete_eq table id new).
  rewrite total_of_insert by apply lookup_delete_eq.
  rewrite <- (insert_delete_id table id old Hid) at 2.
  rewrite total_of_insert by apply lookup_delete_eq. qc_lra.
Qed.

Lemma total_of_fmap uid (g : UserInvestment → UserInvestment) (table : gmap Z UserInvestment) :
  (∀ id inv, table !! id = Some inv → counted uid (g inv) = counted uid inv) →
  total_of uid (g <$> table) = total_of uid table.
Proof.
  induction table as [|id inv table Hid IH] using map_ind; intros Hg.
  - by rewrite fmap_empty.
  - rewrite fmap_insert. rewrite !total_of_insert by (by rewrite ?lookup_fmap, ?Hid).
    rewrite IH.
    + f_equal. apply (Hg id). apply lookup_insert_eq.
    + intros j x Hj. apply (Hg j). rewrite lookup_insert_ne; [done|]. congruence.
Qed.

Lemma counted_sweep_row uid D inv : counted uid (sweep_row D inv) = counted uid inv.
Proof.
  unfold sweep_row, counted.
  repeat (case_decide || case_match); simpl in *;
    try done; try tauto; try (destruct_and!; destruct_or!; congruence).
Qed.

(** X21. The invested total of a user, [get_total_investment], over the life
    of the positions.  A purchase that is stored (the reply is the error
    reply of the [TypeError] raised after the commit) raises the buyer's
    total by the amount and nobody else's; with any other reply every
    total is as it was.  A daily run, a forced maturity and a manual
    distribution leave every total as it was, whatever they report.  A
    settlement that succeeds lowers the owner's total by the principal of
    the settled position, and one that fails leaves every total as it
    was. *)
Theorem total_investment_lifecycle (db : DB) (u : Z) :
  (∀ uid pid amount today,
     ((InvestmentsApi.purchase_investment uid pid amount today db).1
      = InvestmentsApi.error_reply "TypeError" →
      User.get_total_investment u (InvestmentsApi.purchase_investment uid pid amount today db).2
      = User.get_total_investment u db + (if decide (uid = u) then amount else 0))
     ∧ ((InvestmentsApi.purchase_investment uid pid amount today db).1
        ≠ InvestmentsApi.error_reply "TypeError" →
        User.get_total_investment u (InvestmentsApi.purchase_investment uid pid amount today db).2
        = User.get_total_investment u db))
  ∧ (∀ D, User.get_total_investment u (calculate_daily_investment_returns D db).2
          = User.get_total_investment u db)
  ∧ (∀ id, User.get_total_investment u (force_mature_investment id db).2
           = User.get_total_investment u db)
  ∧ (∀ id amount D, User.get_total_investment u (manual_distribute_returns id amount D db).2
                    = User.get_total_investment u db)
  ∧ (∀ id opt f m db', settle_matured_investment id opt f db = (Success m, db') →
       ∃ inv, investments db !! id = Some inv
         ∧ User.get_total_investment u db'
           = User.get_total_investment u db
             - (if decide (user_id inv = u) then amount_invested inv else 0))
  ∧ (∀ id opt f m db', settle_matured_investment id opt f db = (Failure m, db') →
       User.get_total_investment u db' = User.get_total_investment u db).
Proof.
  rewrite !get_total_investment_total_of. split; [|split; [|split; [|split; [|split]]]].
  - intros uid pid amount today.
    destruct (InvestmentsApi.purchase_investment uid pid amount today db) as [r db'] eqn:Hrun.
    simpl. rewrite get_total_investment_total_of.
    apply purchase_investment_cases in Hrun
      as [(Hne & _ & ->)|(-> & package & w & _ & _ & _ & _ & _ & _ & _ & _ & Hfresh & Hinv & _)].
    + split; [intros Heq; by destruct Hne|done].
    + split; [|intros Hne; by destruct Hne]. intros _.
      rewrite Hinv, total_of_insert by done.
      f_equal. unfold counted, new_position. simpl. repeat case_decide; try done; tauto.
  - intros D. rewrite get_total_investment_total_of.
    assert (Heq : investments (calculate_daily_investment_returns D db).2
                  = sweep_row D <$> investments db).
    { apply map_eq. intros id. by rewrite daily_run_row, lookup_fmap. }
    rewrite Heq. apply total_of_fmap. intros id inv _. apply counted_sweep_row.
  - intros id. unfold force_mature_investment.
    destruct (investments db !! id) as [inv|] eqn:Hinv; [|done].
    case_decide as Hs; [done|]. rewrite get_total_investment_total_of. simpl.
    rewrite (alter_set_status _ _ _ _ Hinv), (total_of_replace _ _ inv) by done.
    assert (status inv = ACTIVE) as Ha by (destruct (status inv); try done; by destruct Hs).
    unfold counted. simpl. rewrite Ha. repeat case_decide; try qc_lra; tauto.
  - intros id amount D. by rewrite manual_distribute_outcome.
  - intros id opt f m db' Hrun.
    apply settle_success_inv in Hrun as (inv & Hinv & Hs & Hi & _).
    exists inv. split; [done|].
    rewrite get_total_investment_total_of, Hi, (total_of_replace _ _ inv) by done.
    unfold counted. simpl. rewrite Hs.
    repeat case_decide; try qc_lra; try tauto; destruct_and?; destruct_or?; try done.
  - intros id opt f m db' Hrun. by rewrite (settle_failure _ _ _ _ _ _ Hrun).
Qed.

Lemma total_investment_lifecycle_example :
  User.get_total_investment 1 (InvestmentsApi.purchase_investment 1 7 #80 10 db_locked).2
  = User.get_total_investment 1 db_locked + #80
  ∧ ∃ inv, investments (db_position MATURED) !! 1%Z = Some inv
      ∧ User.get_total_investment 1
          (settle_matured_investment 1 "available_fund" (PyInt 2) (db_position MATURED)).2
        = User.get_total_investment 1 (db_position MATURED) - amount_invested inv.
Proof.
  destruct (total_investment_lifecycle db_locked 1) as (Hbuy & _).
  destruct (Hbuy 1%Z 7%Z #80 10%Z) as (Hstored & _).
  split; [apply Hstored; by_compute|].
  destruct (total_investment_lifecycle (db_position MATURED) 1) as (_ & _ & _ & _ & Hsettle & _).
  destruct (Hsettle 1%Z "available_fund" (PyInt 2) "Investment settled successfully"
              (settle_matured_investment 1 "available_fund" (PyInt 2) (db_position MATURED)).2
              ltac:(by_compute)) as (inv & Hinv & Htotal).
  exists inv. split; [exact Hinv|]. rewrite Htotal.
  assert (Howner : user_id inv = 1%Z).
  { assert (Hrow : investments (db_position MATURED) !! 1%Z = Some (position_200 MATURED))
      by by_compute.
    rewrite Hrow in Hinv. by injection Hinv as <-. }
  by rewrite decide_True.
Defined.

(** * Replies the purchase handler cannot give *)

(** X22. Two replies of the purchase handler are dead code: the second
    closing date check cannot fire once the package has passed the
    availability check, and the spending wallet cannot be missing once the
    wallets have been initialised. *)
Theorem purchase_unreachable_replies (db : DB) (uid pid : Z) (amount : Qc) (today : Z) :
  (∀ package, InvestmentPackage.is_available_for_investment today package = true →
              date_lt (end_date package) today = false)
  ∧ (∀ c, (InvestmentsApi.purchase_investment uid pid amount today db).1
          ≠ Rejected c "Package is no longer accepting new investments")
  ∧ (∀ c, (InvestmentsApi.purchase_investment uid pid amount today db).1
          ≠ Rejected c "Available fund wallet not found").
Proof.
  split.
  { intros package. unfold InvestmentPackage.is_available_for_investment, date_lt.
    intros [_ He]%andb_true_iff. destruct (end_date package) as [e|]; [|done].
    apply bool_decide_eq_true in He. apply bool_decide_eq_false. lia. }
  assert (Hmsg : ∀ c m,
            (InvestmentsApi.purchase_investment uid pid amount today db).1 = Rejected c m →
            m ≠ "Package is no longer accepting new investments"
            ∧ m ≠ "Available fund wallet not found").
  { intros c m.
    destruct (InvestmentsApi.purchase_investment uid pid amount today db) as [r db'] eqn:Hrun.
    simpl. intros ->.
    apply purchase_investment_cases in Hrun as [(_ & (c' & m' & [= -> ->] & H1 & H2) & _)|(Heq & _)].
    - done.
    - unfold InvestmentsApi.error_reply in Heq. injection Heq as _ ->.
      split; intros Hx; vm_compute in Hx; discriminate. }
  split; intros c Heq; apply Hmsg in Heq; tauto.
Qed.

(** * What the return arithmetic evaluates to *)

(** X23. The return arithmetic of a stored position.  [amount_invested]
    is a [Decimal] and [total_return_percentage] a [float], and their
    product is not defined, so [expected_total_return],
    [expected_daily_return], [returns_remaining] and [to_dict] raise for
    every position (a [TypeError], or an [AttributeError] when the package
    is gone); [calculate_return_for_date] is [0] before the start date, on
    or after the maturity date and without a start date, and raises inside
    the term; [_calculate_daily_return] is [0] when the package is
    missing, lasts no day or has a negative percentage, and raises
    otherwise.  The package's own [calculate_daily_return] raises for a
    [Decimal] amount and gives [amount * (percentage / 100) / duration_days]
    for a [float] amount. *)
Theorem return_arithmetic_raises (db : DB) (inv : UserInvestment) :
  let failure := match UserInvestment.package db inv with
                 | Some _ => "TypeError"
                 | None => "AttributeError"
                 end in
  UserInvestment.expected_total_return inv db = (Raise failure, db)
  ∧ UserInvestment.expected_daily_return inv db = (Raise failure, db)
  ∧ UserInvestment.returns_remaining inv db = (Raise failure, db)
  ∧ UserInvestment.to_dict inv db = (Raise failure, db)
  ∧ (∀ D, UserInvestment.calculate_return_for_date D inv db
          = if date_le (returns_start_date inv) D && negb (date_le (maturity_date inv) D)
            then (Raise failure, db) else (Return (PyInt 0), db))
  ∧ _calculate_daily_return inv db
    = match UserInvestment.package db inv with
      | None => (Return (PyInt 0), db)
      | Some package =>
          if decide ((0 < duration_days package)%Z ∧ 0 ≤ total_return_percentage package)
          then (Raise "TypeError", db) else (Return (PyInt 0), db)
      end
  ∧ (∀ package amount,
       InvestmentPackage.calculate_daily_return package (PyDecimal amount) db
       = (Raise "TypeError", db))
  ∧ (∀ package amount, (0 < duration_days package)%Z →
       InvestmentPackage.calculate_daily_return package (PyFloat amount) db
       = (Return (PyFloat (amount * (total_return_percentage package / #100)
                           / Qc_of_Z (duration_days package))), db)).
Proof.
  cbv zeta.
  split; [apply expected_total_return_raises|].
  split; [apply expected_daily_return_raises|].
  split; [apply returns_remaining_raises|].
  split; [apply to_dict_raises|].
  split.
  { intros D. unfold UserInvestment.calculate_return_for_date, date_le.
    destruct (returns_start_date inv) as [s|]; [|done].
    case_decide as Hs.
    { rewrite (bool_decide_eq_false_2 (s ≤ D)%Z) by lia. done. }
    rewrite (bool_decide_eq_true_2 (s ≤ D)%Z) by lia. simpl.
    destruct (maturity_date inv) as [m|]; simpl.
    - case_decide as Hm.
      + by rewrite (bool_decide_eq_true_2 (m ≤ D)%Z).
      + rewrite (bool_decide_eq_false_2 (m ≤ D)%Z) by done. simpl.
        apply expected_daily_return_raises.
    - apply expected_daily_return_raises. }
  split; [apply calculate_daily_return_cases|].
  split.
  - intros package amount. unfold InvestmentPackage.calculate_daily_return, bind, lift.
    by rewrite percentage_of_float.
  - intros package amount Hd. unfold InvestmentPackage.calculate_daily_return, bind, lift.
    rewrite percentage_of_float. cbn [py_mul coerce value].
    rewrite decide_True by done. unfold py_truediv. cbn [coerce value].
    rewrite decide_False; [done|].
    intros Hz. apply (f_equal Qcanon.this) in Hz. simpl in Hz.
    injection Hz as Hz. lia.
Qed.

Lemma return_arithmetic_raises_example :
  UserInvestment.expected_total_return (position_200 ACTIVE) (db_position ACTIVE)
  = (Raise "TypeError", db_position ACTIVE)
  ∧ UserInvestment.calculate_return_for_date 5 (position_200 ACTIVE) (db_position ACTIVE)
    = (Return (PyInt 0), db_position ACTIVE)
  ∧ UserInvestment.calculate_return_for_date 20 (position_200 ACTIVE) (db_position ACTIVE)
    = (Raise "TypeError", db_position ACTIVE)
  ∧ InvestmentPackage.calculate_daily_return package_180 (PyFloat #360) (db_position ACTIVE)
    = (Return (PyFloat (#1 / #2)), db_position ACTIVE).
Proof.
  destruct (return_arithmetic_raises (db_position ACTIVE) (position_200 ACTIVE))
    as (Htotal & _ & _ & _ & Hdate & _ & _ & Hfloat).
  split; [exact Htotal|]. split; [exact (Hdate 5%Z)|]. split; [exact (Hdate 20%Z)|].
  rewrite (Hfloat package_180 #360) by by_compute. by_compute.
Defined.
